(** * Redis Advanced node: dispatcher, value marshalling and report parser

    A shallow embedding of [utils.ts] (setupRedisClient, getParsedValue,
    convertInfoToObject, getValue, setValue) and of the [execute] method of
    the node class, followed by theorems about them.

    Conventions of the embedding.
    - A JavaScript string is its sequence of code units; the model covers the
      code units below 256 (Rocq's [ascii]).
    - A JavaScript number is [NaN], an infinity, or a finite double, kept as
      the rational the double is equal to; what is not a double is rounded
      to the nearest one, ties to even (negative zero is identified with
      zero).
    - An object whose property order is observable (it is enumerated, or it is
      passed to the store client) is an association list in the order its
      keys are enumerated: integer keys ascending, then the other keys in
      order of insertion.  The report built by [convertInfoToObject] is only
      ever used as a mapping and is a [gmap].
    - The store client is an oracle answering each call from the calls made
      before it; every call is appended to a trace.
    - Exceptions carry their message, as that is all [execute] reads. *)

From Stdlib Require Import Ascii String QArith Qreduction Qround.
From stdpp Require Import base option list strings gmap pretty.

Local Open Scope Z_scope.
Local Open Scope string_scope.
Local Open Scope list_scope.
Local Set Warnings "-register-all,-notation-for-abbreviation".

(** ** Strings *)

Module Str.

Definition code (c : ascii) : N := N_of_ascii c.

(** [\d] of a JavaScript regular expression. *)
Definition is_digit (c : ascii) : bool :=
  ((48 <=? code c) && (code c <=? 57))%N.

(** WhiteSpace and LineTerminator below 256: TAB, LF, VT, FF, CR, SP, NBSP.
    The same characters are [\s] of a regular expression and what
    [String.prototype.trim] removes. *)
Definition is_space (c : ascii) : bool :=
  (((9 <=? code c) && (code c <=? 13)) || (code c =? 32) || (code c =? 160))%N.

Fixpoint length (s : string) : nat :=
  match s with
  | EmptyString => 0%nat
  | String _ r => S (length r)
  end.

Definition is_empty (s : string) : bool :=
  match s with EmptyString => true | _ => false end.

Fixpoint all (p : ascii -> bool) (s : string) : bool :=
  match s with
  | EmptyString => true
  | String c r => p c && all p r
  end.

(** [s.includes(c)] for a one-character needle. *)
Fixpoint includes (c : ascii) (s : string) : bool :=
  match s with
  | EmptyString => false
  | String d r => Ascii.eqb d c || includes c r
  end.

(** [s.charAt(0)]: the empty string when [s] is empty. *)
Definition charAt0 (s : string) : string :=
  match s with
  | EmptyString => EmptyString
  | String c _ => String c EmptyString
  end.

(** [s.split(sep)] for a one-character separator: never empty. *)
Fixpoint split (sep : ascii) (s : string) : list string :=
  match s with
  | EmptyString => [EmptyString]
  | String c r =>
      if Ascii.eqb c sep then EmptyString :: split sep r
      else match split sep r with
           | w :: ws => String c w :: ws
           | [] => [String c EmptyString]
           end
  end.

(** [s.split(/\s+/)]: the pieces between maximal runs of white space; a
    leading or trailing run leaves an empty piece.  [in_run] tells that the
    previous character was white space. *)
Fixpoint split_ws_from (in_run : bool) (s : string) : list string :=
  match s with
  | EmptyString => [EmptyString]
  | String c r =>
      if is_space c then
        if in_run then split_ws_from true r
        else EmptyString :: split_ws_from true r
      else match split_ws_from false r with
           | w :: ws => String c w :: ws
           | [] => [String c EmptyString]
           end
  end.

Definition split_ws (s : string) : list string := split_ws_from false s.

(** [s.split(/\s+/).filter((k) => k.length > 0)] *)
Definition tokens (s : string) : list string :=
  List.filter (fun k => negb (is_empty k)) (split_ws s).

Fixpoint trim_start (s : string) : string :=
  match s with
  | String c r => if is_space c then trim_start r else s
  | EmptyString => EmptyString
  end.

Definition rev (s : string) : string :=
  string_of_list_ascii (List.rev (list_ascii_of_string s)).

Definition trim (s : string) : string :=
  rev (trim_start (rev (trim_start s))).

(** Leading decimal digits and what follows them. *)
Fixpoint span_digits (s : string) : string * string :=
  match s with
  | String c r =>
      if is_digit c then let '(d, t) := span_digits r in (String c d, t)
      else (EmptyString, s)
  | EmptyString => (EmptyString, EmptyString)
  end.

Fixpoint digits_value (acc : Z) (s : string) : Z :=
  match s with
  | EmptyString => acc
  | String c r => digits_value (10 * acc + (Z.of_N (code c) - 48)) r
  end.

Definition starts_with (p s : string) : bool :=
  String.prefix p s.

(** One-character strings of [s], as indexing a string yields them. *)
Fixpoint chars (s : string) : list string :=
  match s with
  | EmptyString => []
  | String c r => String c EmptyString :: chars r
  end.

(** [toUpperCase], exact on ASCII letters (the set modes are ASCII). *)
Definition upper_char (c : ascii) : ascii :=
  if ((97 <=? code c) && (code c <=? 122))%N
  then ascii_of_N (code c - 32) else c.

Fixpoint toUpperCase (s : string) : string :=
  match s with
  | EmptyString => EmptyString
  | String c r => String (upper_char c) (toUpperCase r)
  end.

Definition quote : string := String "034"%char EmptyString.

End Str.

(** ** Numbers *)

Inductive jsnum : Type :=
  | NaN
  | Infinity (negative : bool)
  | Finite (q : Q).

(** The fraction [n / d] rounded to an integer, ties to even. *)
Definition round_half_even (n d : Z) : Z :=
  let q := n / d in
  let r := n mod d in
  if (2 * r <? d)%Z then q
  else if (d <? 2 * r)%Z then q + 1
  else if Z.even q then q else q + 1.

(** Numerator and denominator of [(a / b) / 2^k]. *)
Definition scaled (a b k : Z) : Z * Z :=
  if (0 <=? k)%Z then (a, b * 2 ^ k) else (a * 2 ^ (- k), b).

(** The double nearest to [a / b], for positive [a] and [b]: 53 bits of
    mantissa, no exponent of the last bit below -1074, and nothing at
    [2^1024] or above, where the rounding gives [None] for the infinity. *)
Definition nearest_double (a b : Z) : option Q :=
  let e0 := Z.log2 a - Z.log2 b in
  let '(n0, d0) := scaled a b e0 in
  let e := if (n0 <? d0)%Z then e0 - 1 else e0 in
  let p := Z.max (e - 52) (-1074) in
  let '(n, d) := scaled a b p in
  let m := round_half_even n d in
  if (0 <=? p)%Z then
    if (m * 2 ^ p <? 2 ^ 1024)%Z then Some (m * 2 ^ p # 1) else None
  else Some (Qred (m # Z.to_pos (2 ^ (- p)))).

(** The Number value of a rational. *)
Definition to_double (q : Q) : jsnum :=
  let r := Qred q in
  match Qnum r with
  | Z0 => Finite 0
  | Zpos a =>
      match nearest_double (Zpos a) (Zpos (Qden r)) with
      | Some v => Finite v
      | None => Infinity false
      end
  | Zneg a =>
      match nearest_double (Zpos a) (Zpos (Qden r)) with
      | Some v => Finite (- v)
      | None => Infinity true
      end
  end.

(** The Number value of the decimal [m / 10^scale]. *)
Definition decimal (m : Z) (scale : nat) : jsnum :=
  to_double (inject_Z m * Qpower (10 # 1) (- Z.of_nat scale)).

(** The Number value of an integer. *)
Definition num_of_Z (z : Z) : jsnum := to_double (inject_Z z).

(** [n > 0] *)
Definition num_gt0 (n : jsnum) : bool :=
  match n with
  | NaN => false
  | Infinity negative => negb negative
  | Finite q => match Qcompare 0 q with Lt => true | _ => false end
  end.

Definition num_is_zero (n : jsnum) : bool :=
  match n with
  | Finite q => Qeq_bool q 0
  | _ => false
  end.

Definition take_sign (s : string) : bool * string :=
  match s with
  | String "-"%char r => (true, r)
  | String "+"%char r => (false, r)
  | _ => (false, s)
  end.

(** [parseFloat]: the Number value of the longest prefix of the trimmed
    text that is a StrDecimalLiteral, which is the double nearest to the
    decimal the prefix writes, or an infinity; [NaN] when there is no such
    prefix. *)
Definition parseFloat (s : string) : jsnum :=
  let '(negative, s1) := take_sign (Str.trim_start s) in
  if Str.starts_with "Infinity" s1 then Infinity negative else
  let '(ip, r1) := Str.span_digits s1 in
  let '(fp, r2) :=
    match r1 with
    | String "."%char r => Str.span_digits r
    | _ => (EmptyString, r1)
    end in
  if Str.is_empty ip && Str.is_empty fp then NaN else
  let e :=
    match r2 with
    | String c r =>
        if Ascii.eqb c "e" || Ascii.eqb c "E" then
          let '(eneg, r3) := take_sign r in
          let '(ed, _) := Str.span_digits r3 in
          if Str.is_empty ed then 0
          else if eneg then - Str.digits_value 0 ed else Str.digits_value 0 ed
        else 0
    | EmptyString => 0
    end in
  let mant := Str.digits_value 0 (ip ++ fp) in
  to_double (inject_Z (if negative then - mant else mant)
             * Qpower (10 # 1) (e - Z.of_nat (Str.length fp))).

(** ** Errors *)

(** What a [throw] carries: the message, and the item index a
    [NodeOperationError] was given, if any. *)
Record error : Type := Err { message : string; itemIndex : option nat }.

Definition TypeError (msg : string) : error := Err msg None.

(** The TypeError of a property read on [undefined] or [null]. *)
Definition cannot_read (base property : string) : error :=
  TypeError ("Cannot read properties of " ++ base
             ++ " (reading '" ++ property ++ "')").

(** [new NodeOperationError(node, msg, { itemIndex })] for a message the
    node writes itself: an error with that message and that index.  (The
    constructor rewrites a message that holds an error code of Node, such as
    ECONNREFUSED; the fixed messages of the node hold none.) *)
Definition NodeOperationError (msg : string) (i : option nat) : error := Err msg i.

Inductive result (A : Type) : Type :=
  | Ok (a : A)
  | Thrown (e : error).
Arguments Ok {A} a.
Arguments Thrown {A} e.

(** ** Report parser (utils.ts) *)

Inductive scalar : Type :=
  | SString (s : string)
  | SNumber (n : jsnum).

Inductive info_value : Type :=
  | IScalar (v : scalar)
  | INested (fields : gmap string scalar).

(** [value.match(/^[\d\.]+$/) !== null] *)
Definition matches_digits_dots (value : string) : bool :=
  negb (Str.is_empty value)
  && Str.all (fun c => Str.is_digit c || Ascii.eqb c ".") value.

(** Parses the given value in a number if it is one else returns a string *)
Definition getParsedValue (value : string) : scalar :=
  if matches_digits_dots value then SNumber (parseFloat value)
  else SString value.

(** [obj[key] = v] on an object literal: an own property is written, except
    that the key [__proto__] reaches the prototype setter and leaves the own
    properties as they are. *)
Definition assign {V : Type} (key : string) (v : V) (obj : gmap string V)
  : gmap string V :=
  if String.eqb key "__proto__" then obj else <[key := v]> obj.

(** The inner loop of [convertInfoToObject] over [value.split(',')]:
    [[key2, value2] = keyValuePair.split('=')], then
    [obj[key2] = getParsedValue(value2)].  A pair without [=] leaves [value2]
    undefined and [value2.match] throws. *)
Fixpoint nested_fields (pairs : list string) (obj : gmap string scalar)
  : result (gmap string scalar) :=
  match pairs with
  | [] => Ok obj
  | keyValuePair :: rest =>
      match Str.split "=" keyValuePair with
      | key2 :: value2 :: _ =>
          nested_fields rest (assign key2 (getParsedValue value2) obj)
      | _ => Thrown (cannot_read "undefined" "match")
      end
  end.

(** One iteration of the loop over the lines. *)
Definition info_line (line : string) (returnData : gmap string info_value)
  : result (gmap string info_value) :=
  if bool_decide (Str.charAt0 line ∈ ["#"; EmptyString]) then Ok returnData else
  match Str.split ":" line with
  | key :: value :: _ =>
      let value := Str.trim value in
      if Str.includes "=" value then
        match nested_fields (Str.split "," value) ∅ with
        | Ok fields => Ok (assign key (INested fields) returnData)
        | Thrown e => Thrown e
        end
      else Ok (assign key (IScalar (getParsedValue value)) returnData)
  | _ => Ok returnData
  end.

Fixpoint info_lines (lines : list string) (returnData : gmap string info_value)
  : result (gmap string info_value) :=
  match lines with
  | [] => Ok returnData
  | line :: rest =>
      match info_line line returnData with
      | Ok returnData' => info_lines rest returnData'
      | Thrown e => Thrown e
      end
  end.

(** Converts the Redis Info String into an object *)
Definition convertInfoToObject (stringData : string)
  : result (gmap string info_value) :=
  info_lines (Str.split "010" stringData) ∅.

(** ** Values *)

(** JavaScript values as plain data.  An object lists its own enumerable
    properties in enumeration order, each key once; its properties are data,
    so [toString] is the one of [Object.prototype]. *)
Inductive jsval : Type :=
  | VUndefined
  | VNull
  | VBool (b : bool)
  | VNum (n : jsnum)
  | VBigInt (z : Z)
  | VStr (s : string)
  | VArr (elements : list jsval)
  | VObj (props : list (string * jsval)).

Definition props := list (string * jsval).

Definition VInt (z : Z) : jsval := VNum (num_of_Z z).

(** [v === 'lit'] *)
Definition is_str (v : jsval) (lit : string) : bool :=
  match v with VStr s => String.eqb s lit | _ => false end.

Definition is_undefined (v : jsval) : bool :=
  match v with VUndefined => true | _ => false end.

(** [v === null] *)
Definition is_null (v : jsval) : bool :=
  match v with VNull => true | _ => false end.

(** [v === false] *)
Definition is_false (v : jsval) : bool :=
  match v with VBool false => true | _ => false end.

(** ToBoolean *)
Definition truthy (v : jsval) : bool :=
  match v with
  | VUndefined | VNull => false
  | VBool b => b
  | VNum NaN => false
  | VNum n => negb (num_is_zero n)
  | VBigInt z => negb (z =? 0)%Z
  | VStr s => negb (Str.is_empty s)
  | VArr _ | VObj _ => true
  end.

(** [v ?? null] *)
Definition or_null (v : jsval) : jsval :=
  match v with VUndefined | VNull => VNull | _ => v end.

Fixpoint lookup_prop (key : string) (o : props) : option jsval :=
  match o with
  | [] => None
  | (k, v) :: rest => if String.eqb k key then Some v else lookup_prop key rest
  end.

Fixpoint replace_prop (key : string) (v : jsval) (o : props) : props :=
  match o with
  | [] => []
  | (k, w) :: rest =>
      if String.eqb k key then (k, v) :: rest
      else (k, w) :: replace_prop key v rest
  end.

(** An integer key (an array index: a canonical numeral below [2^32 - 1])
    and its value. *)
Definition array_index (key : string) : option N :=
  match key with
  | EmptyString => None
  | String c r =>
      if Str.all Str.is_digit key
         && (negb (Ascii.eqb c "0") || Str.is_empty r)
         && (Z.to_N (Str.digits_value 0 key) <? 4294967295)%N
      then Some (Z.to_N (Str.digits_value 0 key))
      else None
  end.

(** A new integer key goes before the first integer key above it and
    before all other keys. *)
Fixpoint insert_index (n : N) (key : string) (v : jsval) (o : props) : props :=
  match o with
  | [] => [(key, v)]
  | (k, w) :: rest =>
      match array_index k with
      | Some m =>
          if (m <? n)%N then (k, w) :: insert_index n key v rest
          else (key, v) :: o
      | None => (key, v) :: o
      end
  end.

(** Definition of an own property ([{ ...o, key: v }], a computed key of an
    object literal): an existing key keeps its place, a new integer key is
    placed among the integer keys, any other new key goes last. *)
Definition define_prop (key : string) (v : jsval) (o : props) : props :=
  match lookup_prop key o with
  | Some _ => replace_prop key v o
  | None =>
      match array_index key with
      | Some n => insert_index n key v o
      | None => o ++ [(key, v)]
      end
  end.

(** [o[key] = v] on an object made by a literal: as [define_prop], except
    that [__proto__] reaches the prototype setter and adds nothing. *)
Definition set_prop (key : string) (v : jsval) (o : props) : props :=
  if String.eqb key "__proto__" then o else define_prop key v o.

(** Index keys ["0"], ["1"], ... paired with the elements. *)
Definition indexed {A : Type} (l : list A) : list (string * A) :=
  imap (fun i x => (pretty i, x)) l.

(** What the platform supplies and the node only calls. *)
Record Runtime : Type := {
  (** [JSON.parse] of a text: the value, or the SyntaxError. *)
  JSON_parse : string -> result jsval;
  (** [JSON.stringify] of a value that [JSON.parse] returned. *)
  JSON_stringify : jsval -> jsval;
  (** [Number.prototype.toString] *)
  Number_toString : jsnum -> string;
  (** StringToNumber, the conversion behind [text > 0]. *)
  StringToNumber : string -> jsnum;
  (** lodash [set(object, path, value)], returning the updated object. *)
  lodash_set : props -> jsval -> jsval -> props;
  (** [new NodeOperationError(node, error, { itemIndex })] for a caught
      error: the constructor of n8n-workflow decides what the new error keeps
      of the caught one and of the index. *)
  NodeOperationError_of : error -> option nat -> error;
}.

Section Values.
Context (rt : Runtime).

(** The ToString conversion (template literals, property keys, the argument
    of [JSON.parse]). *)
Fixpoint ToString (v : jsval) : string :=
  match v with
  | VUndefined => "undefined"
  | VNull => "null"
  | VBool true => "true"
  | VBool false => "false"
  | VNum n => Number_toString rt n
  | VBigInt z => pretty z
  | VStr s => s
  | VArr elements =>
      String.concat ","
        (List.map (fun e => match e with
                            | VUndefined | VNull => EmptyString
                            | _ => ToString e
                            end) elements)
  | VObj _ => "[object Object]"
  end.

(** [v.toString()] *)
Definition toString (v : jsval) : result string :=
  match v with
  | VUndefined =>
      Thrown (cannot_read "undefined" "toString")
  | VNull =>
      Thrown (cannot_read "null" "toString")
  | _ => Ok (ToString v)
  end.

(** ToNumber, as the comparison [v > 0] applies it. *)
Definition ToNumber (v : jsval) : jsnum :=
  match v with
  | VUndefined => NaN
  | VNull => num_of_Z 0
  | VBool true => num_of_Z 1
  | VBool false => num_of_Z 0
  | VNum n => n
  | VBigInt z => num_of_Z z
  | VStr s => StringToNumber rt s
  | VArr _ | VObj _ => StringToNumber rt (ToString v)
  end.

(** [v > 0] *)
Definition gt0 (v : jsval) : bool := num_gt0 (ToNumber v).

(** [v.name] for a property that data can have. *)
Definition get_prop (v : jsval) (name : string) : result jsval :=
  match v with
  | VUndefined =>
      Thrown (cannot_read "undefined" name)
  | VNull =>
      Thrown (cannot_read "null" name)
  | VObj o => Ok (default VUndefined (lookup_prop name o))
  | _ => Ok VUndefined
  end.

(** [v[index]] *)
Definition get_index (v : jsval) (index : nat) : result jsval :=
  match v with
  | VUndefined =>
      Thrown (cannot_read "undefined" (pretty index))
  | VNull =>
      Thrown (cannot_read "null" (pretty index))
  | VArr elements => Ok (default VUndefined (elements !! index))
  | VStr s => Ok (default VUndefined (VStr <$> Str.chars s !! index))
  | VObj o => Ok (default VUndefined (lookup_prop (pretty index) o))
  | _ => Ok VUndefined
  end.

(** The pairs [(key, values[key])] for [key of Object.keys(values)]. *)
Definition own_entries (values : jsval) : result props :=
  match values with
  | VUndefined | VNull =>
      Thrown (TypeError "Cannot convert undefined or null to object")
  | VObj o => Ok o
  | VArr elements => Ok (indexed elements)
  | VStr s => Ok (indexed (VStr <$> Str.chars s))
  | _ => Ok []
  end.

(** How many times [for (index = 0; index < value.length; index++)] can
    enter its body.  An object counts by its [length] property; as the body
    throws at the first index the object lacks, and it lacks one below the
    number of its properties, that number bounds the count. *)
Definition loop_count (value : jsval) : result nat :=
  match value with
  | VUndefined =>
      Thrown (cannot_read "undefined" "length")
  | VNull =>
      Thrown (cannot_read "null" "length")
  | VArr elements => Ok (List.length elements)
  | VStr s => Ok (Str.length s)
  | VObj o =>
      Ok (match ToNumber (default VUndefined (lookup_prop "length" o)) with
          | NaN => 0%nat
          | Infinity negative => if negative then 0%nat else List.length o
          | Finite q => Nat.min (Z.to_nat (Qceiling q)) (List.length o)
          end)
  | _ => Ok 0%nat
  end.

(** [setMode.toUpperCase()] *)
Definition toUpperCase (v : jsval) : result string :=
  match v with
  | VStr s => Ok (Str.toUpperCase s)
  | VUndefined =>
      Thrown (cannot_read "undefined" "toUpperCase")
  | VNull =>
      Thrown (cannot_read "null" "toUpperCase")
  | _ => Thrown (TypeError "setMode.toUpperCase is not a function")
  end.

End Values.

(** ** The store client and the monad of [async] code *)

(** [client.command(args)] *)
Inductive call : Type := Call (command : string) (args : list jsval).

(** A promise settles: resolved with a value, or rejected with an error
    that has the given message. *)
Inductive reply : Type :=
  | Resolve (v : jsval)
  | Reject (msg : string).

(** A client built from the given options answers a call from the calls
    made so far. *)
Definition oracle : Type := jsval -> list call -> call -> reply.

Record item : Type := { json : props; pairedItem : option nat }.

(** An element of [returnItems]: an item, or the item [{ json: report }]
    of the info operation. *)
Inductive output : Type :=
  | Out (it : item)
  | OutReport (report : gmap string info_value).

Record state : Type := { trace : list call; returnItems : list output }.

Definition M (A : Type) : Type := state -> result A * state.

Definition ret {A : Type} (a : A) : M A := fun s => (Ok a, s).

Definition throw {A : Type} (e : error) : M A := fun s => (Thrown e, s).

Definition bind {A B : Type} (m : M A) (k : A -> M B) : M B :=
  fun s => match m s with
           | (Ok a, s') => k a s'
           | (Thrown e, s') => (Thrown e, s')
           end.

(** [try { m } catch (error) { h error }] *)
Definition try_catch {A : Type} (m : M A) (h : error -> M A) : M A :=
  fun s => match m s with
           | (Ok a, s') => (Ok a, s')
           | (Thrown e, s') => h e s'
           end.

Definition lift {A : Type} (r : result A) : M A := fun s => (r, s).

(** [returnItems.push(o)] *)
Definition push (o : output) : M unit :=
  fun s => (Ok tt, {| trace := trace s; returnItems := returnItems s ++ [o] |}).

Definition get_returnItems : M (list output) := fun s => (Ok (returnItems s), s).

#[global] Instance M_ret : MRet M := @ret.
#[global] Instance M_bind : MBind M := fun A B k m => bind m k.

Fixpoint for_each {A : Type} (l : list A) (body : A -> M unit) : M unit :=
  match l with
  | [] => ret tt
  | x :: rest => body x;; for_each rest body
  end.

Fixpoint fold_m {A B : Type} (f : B -> A -> M B) (l : list A) (acc : B) : M B :=
  match l with
  | [] => ret acc
  | x :: rest => acc' ← f acc x; fold_m f rest acc'
  end.

(** ** utils.ts *)

Record RedisCredential : Type := {
  host : jsval;
  port : jsval;
  database : jsval;
  user : jsval;
  password : jsval;
  ssl : jsval;
}.

(** [v || undefined] *)
Definition or_undefined (v : jsval) : jsval :=
  if truthy v then v else VUndefined.

(** The options handed to [createClient]; they stand for the client. *)
Definition setupRedisClient (credentials : RedisCredential) : jsval :=
  let socketConfig :=
    [("host", host credentials); ("port", port credentials)]
    ++ (match ssl credentials with
        | VBool true => [("tls", VBool true)]
        | _ => []
        end) in
  VObj [("socket", VObj socketConfig);
        ("database", database credentials);
        ("username", or_undefined (user credentials));
        ("password", or_undefined (password credentials))].

(** The host of the node, [this: IExecuteFunctions]. *)
Record IExecuteFunctions : Type := {
  getCredentials : result RedisCredential;
  (** [getNodeParameter(name, itemIndex, fallback?)] *)
  getNodeParameter : string -> nat -> option jsval -> result jsval;
  continueOnFail : bool;
  getInputData : list item;
}.

Section Node.
Context (rt : Runtime) (respond : oracle).

(** [await client.command(...args)]: the call is recorded, then the
    promise settles. *)
Definition await (client : jsval) (command : string) (args : list jsval)
  : M jsval :=
  fun s =>
    let c := Call command args in
    let s' := {| trace := trace s ++ [c]; returnItems := returnItems s |} in
    match respond client (trace s) c with
    | Resolve v => (Ok v, s')
    | Reject msg => (Thrown (Err msg None), s')
    end.

Definition getValue (client : jsval) (keyName : jsval) (type : jsval)
  : M jsval :=
  type ← (if is_undefined type || is_str type "automatic"
          then await client "type" [keyName]
          else ret type);
  if is_str type "string" then await client "get" [keyName]
  else if is_str type "hash" then await client "hGetAll" [keyName]
  else if is_str type "list" then
    await client "lRange" [keyName; VInt 0; VInt (-1)]
  else if is_str type "sets" then await client "sMembers" [keyName]
  else ret VUndefined.

(** The type [setValue] writes: the given one, or for [undefined] and
    ['automatic'] the one read off the value. *)
Definition resolve_type (value type : jsval) : result jsval :=
  if is_undefined type || is_str type "automatic" then
    match value with
    | VStr _ => Ok (VStr "string")
    | VArr _ => Ok (VStr "list")
    | VObj _ | VNull => Ok (VStr "hash")
    | _ => Thrown (NodeOperationError
             "Could not identify the type to set. Please set it manually!" None)
    end
  else Ok type.

Definition is_conditional (setMode : jsval) : bool :=
  is_str setMode "nx" || is_str setMode "xx".

(** The options of the string write, in the order they are assigned. *)
Definition setOptions (expire ttl setMode : jsval) : props :=
  (if truthy expire && gt0 rt ttl then [("EX", ttl)] else [])
  ++ (if is_str setMode "nx" then [("NX", VBool true)]
      else if is_str setMode "xx" then [("XX", VBool true)]
      else []).

(** What [setValue] returns when the condition of the write is not met. *)
Definition condition_not_met (keyName setMode : jsval) : result jsval :=
  match toUpperCase setMode with
  | Ok upper =>
      Ok (VObj
        [("success", VBool false);
         ("operation", VStr ("SET " ++ upper));
         ("key", keyName);
         ("reason", VStr (if is_str setMode "nx" then "key_already_exists"
                          else "key_does_not_exist"));
         ("message",
          VStr ("SET " ++ upper ++ " condition not met: key "
                ++ Str.quote ++ ToString rt keyName ++ Str.quote ++ " "
                ++ (if is_str setMode "nx" then "already exists"
                    else "does not exist")))])
  | Thrown e => Thrown e
  end.

(** The string branch; [Some r] is its early [return r]. *)
Definition set_string (client keyName value expire ttl setMode : jsval)
  : M (option jsval) :=
  let options := setOptions expire ttl setMode in
  if (0 <? List.length options)%nat then
    text ← lift (toString rt value);
    reply ← await client "set" [keyName; VStr text; VObj options];
    if is_null reply && is_conditional setMode then
      r ← lift (condition_not_met keyName setMode); ret (Some r)
    else ret None
  else
    text ← lift (toString rt value);
    await client "set" [keyName; VStr text];;
    ret None.

Definition set_hash (client keyName value valueIsJSON : jsval) : M unit :=
  if truthy valueIsJSON then
    let values :=
      match value with
      | VStr text =>
          match JSON_parse rt text with
          | Ok parsed => parsed
          | Thrown _ =>
              (* This is how we originally worked and prevents a breaking change *)
              value
          end
      | _ => value
      end in
    entries ← lift (own_entries values);
    for_each entries (fun '(key, field) =>
      text ← lift (toString rt field);
      await client "hSet" [keyName; VStr key; VStr text];;
      ret tt)
  else
    text ← lift (toString rt value);
    await client "hSet" [keyName; VArr (VStr <$> Str.split " " text)];;
    ret tt.

Definition set_list (client keyName value : jsval) : M unit :=
  count ← lift (loop_count rt value);
  for_each (seq 0 count) (fun index =>
    element ← lift (get_index value index);
    text ← lift (toString rt element);
    await client "lSet" [keyName; VInt (Z.of_nat index); VStr text];;
    ret tt).

(** What [setValue] returns after a write. *)
Definition success_result (keyName setMode : jsval) : result jsval :=
  match (if truthy setMode
         then match toUpperCase setMode with
              | Ok upper => Ok ("SET " ++ upper)%string
              | Thrown e => Thrown e
              end
         else Ok "SET") with
  | Ok label =>
      Ok (VObj [("success", VBool true);
                ("operation", VStr label);
                ("key", keyName)])
  | Thrown e => Thrown e
  end.

(** The end of [setValue], past the branches on the type. *)
Definition set_finish (client keyName expire ttl type setMode : jsval)
  : M jsval :=
  (* Handle expiration for non-string types (hash, list, sets) *)
  (if truthy expire && gt0 rt ttl && negb (is_str type "string")
   then await client "expire" [keyName; ttl];; ret tt
   else ret tt);;
  (* Return success result for normal operations *)
  lift (success_result keyName setMode).

Definition setValue (client keyName value expire ttl type valueIsJSON setMode
                     : jsval) : M jsval :=
  type ← lift (resolve_type value type);
  early ← (if is_str type "string" then
             set_string client keyName value expire ttl setMode
           else if is_str type "hash" then
             set_hash client keyName value valueIsJSON;; ret None
           else if is_str type "list" then
             set_list client keyName value;; ret None
           else if is_str type "sets" then
             await client "sAdd" [keyName; value];; ret None
           else ret None);
  match early with
  | Some r => ret r
  | None => set_finish client keyName expire ttl type setMode
  end.

(** [{ status, message }], what the credential test returns. *)
Record INodeCredentialTestResult : Type := {
  status : string;
  status_message : string;
}.

Definition redisConnectionTest (credentials : RedisCredential)
  : M INodeCredentialTestResult :=
  try_catch
    (let client := setupRedisClient credentials in
     await client "connect" [];;
     await client "ping" [];;
     ret {| status := "OK"; status_message := "Connection successful!" |})
    (fun error =>
       ret {| status := "Error"; status_message := message error |}).

End Node.

(** ** RedisAdvanced.node.ts: [execute] *)

(** The operations of the per-item branch. *)
Definition per_item_operations : list string :=
  ["delete"; "get"; "jsonget"; "jsonset"; "keys"; "set"; "incr"; "publish";
   "push"; "pop"; "exists"; "mget"; "mset"; "scan"; "ttl"; "persist";
   "expireat"; "getset"; "append"; "strlen"; "blpop"; "brpop"; "llen";
   "sadd"; "srem"; "sismember"; "scard"; "zadd"; "zrange"; "zrem"; "zcard";
   "hlen"; "hkeys"; "hvals"; "hexists"; "eval"].

(** [{ json: { error: error.message }, pairedItem: { item: i } }] *)
Definition error_item (e : error) (i : nat) : output :=
  Out {| json := [("error", VStr (message e))]; pairedItem := Some i |}.

(** [{ json }], an item without [pairedItem]. *)
Definition plain (json : props) : output :=
  Out {| json := json; pairedItem := None |}.

(** [for (i = 0; i < pairs.length; i += 2) msetObj[pairs[i]] = pairs[i + 1]] *)
Fixpoint mset_object (pairs : list string) (msetObj : props) : props :=
  match pairs with
  | key :: value :: rest => mset_object rest (set_prop key (VStr value) msetObj)
  | _ => msetObj
  end.

(** [for (i = 0; i < pairs.length; i += 2)
       members.push({ score: parseFloat(pairs[i]), value: pairs[i + 1] })] *)
Fixpoint score_members (pairs : list string) : list jsval :=
  match pairs with
  | score :: value :: rest =>
      VObj [("score", VNum (parseFloat score)); ("value", VStr value)]
      :: score_members rest
  | _ => []
  end.

Section Dispatcher.
Context (rt : Runtime) (respond : oracle) (this : IExecuteFunctions).
Context (client : jsval).

Local Notation await := (await respond client).

Definition items : list item := getInputData this.

(** [items[i]]; the loops keep [i] below [items.length]. *)
Definition input (i : nat) : item :=
  default {| json := []; pairedItem := None |} (items !! i).

(** [this.getNodeParameter(name, i)] *)
Definition param (name : string) (i : nat) : M jsval :=
  lift (getNodeParameter this name i None).

(** [this.getNodeParameter(name, i, fallback)] *)
Definition param_or (name : string) (i : nat) (fallback : jsval) : M jsval :=
  lift (getNodeParameter this name i (Some fallback)).

(** [v.split(/\s+/).filter((k) => k.length > 0)] *)
Definition split_tokens (what : string) (v : jsval) : M (list string) :=
  match v with
  | VStr s => ret (Str.tokens s)
  | VUndefined =>
      throw (cannot_read "undefined" "split")
  | VNull =>
      throw (cannot_read "null" "split")
  | _ => throw (TypeError (what ++ ".split is not a function"))
  end.

(** [JSON.parse(v)] *)
Definition parse (v : jsval) : result jsval := JSON_parse rt (ToString rt v).

(** [options.dotNotation === false ? (json[propertyName] = value)
                                   : set(json, propertyName, value)] *)
Definition store (i : nat) (json : props) (propertyName value : jsval)
  : M props :=
  options ← param_or "options" i (VObj []);
  dotNotation ← lift (get_prop options "dotNotation");
  if is_false dotNotation
  then ret (set_prop (ToString rt propertyName) value json)
  else ret (lodash_set rt json propertyName value).

Definition op_delete (itemIndex : nat) : M unit :=
  keyDelete ← param "key" itemIndex;
  await "del" [keyDelete];;
  push (Out (input itemIndex)).

Definition op_get (itemIndex : nat) : M unit :=
  propertyName ← param "propertyName" itemIndex;
  keyGet ← param "key" itemIndex;
  keyType ← param "keyType" itemIndex;
  value ← getValue respond client keyGet keyType;
  json ← store itemIndex [] propertyName (or_null value);
  push (Out {| json := json; pairedItem := Some itemIndex |}).

(** The [try] block of the loop that the jsonset branch runs over all
    items. *)
Definition jsonset_item (i : nat) : M unit :=
  key ← param "key" i;
  path ← param_or "path" i (VStr "$");
  value ← param "value" i;
  setMode ← param_or "setMode" i (VStr "default");
  jsonValue ← match parse value with
              | Ok jsonValue => ret jsonValue
              | Thrown error =>
                  throw (NodeOperationError
                           ("Invalid JSON value: " ++ message error) (Some i))
              end;
  let args :=
    [key; path; JSON_stringify rt jsonValue]
    ++ (if is_str setMode "NX" then [VStr "NX"]
        else if is_str setMode "XX" then [VStr "XX"]
        else []) in
  reply ← await "sendCommand" [VArr (VStr "JSON.SET" :: args)];
  push (Out {| json := [("key", key);
                        ("path", path);
                        ("result", if truthy reply then reply else VStr "OK");
                        ("success", VBool (negb (is_null reply)))];
               pairedItem := Some i |}).

(** One turn of that loop: the [try] block and its [catch]. *)
Definition jsonset_step (i : nat) : M unit :=
  try_catch (jsonset_item i) (fun error =>
    if continueOnFail this then push (error_item error i)
    else
      await "quit" [];;
      throw (NodeOperationError_of rt error (Some i))).

(** [for (let i = 0; i < items.length; i++)], from the given indices on. *)
Definition jsonset_loop (indices : list nat) : M unit :=
  for_each indices jsonset_step.

Definition op_jsonset : M unit := jsonset_loop (seq 0 (List.length items)).

(** The [try] block of the loop that the jsonget branch runs over all
    items. *)
Definition jsonget_item (i : nat) : M unit :=
  key ← param "key" i;
  path ← param_or "path" i (VStr "$");
  options ← param_or "options" i (VObj []);
  indent ← lift (get_prop options "indent");
  newline ← lift (get_prop options "newline");
  space ← lift (get_prop options "space");
  let args :=
    [key]
    ++ (if truthy path then [path] else [])
    ++ (if truthy indent then [VStr "INDENT"; indent] else [])
    ++ (if truthy newline then [VStr "NEWLINE"; newline] else [])
    ++ (if truthy space then [VStr "SPACE"; space] else []) in
  reply ← await "sendCommand" [VArr (VStr "JSON.GET" :: args)];
  let parsedResult :=
    if truthy reply
    then match parse reply with
         | Ok parsed => parsed
         | Thrown _ => reply
         end
    else VNull in
  push (Out {| json := [("key", key);
                        ("path", path);
                        ("value", parsedResult);
                        ("exists", VBool (negb (is_null reply)))];
               pairedItem := Some i |}).

(** One turn of that loop: the [try] block and its [catch]. *)
Definition jsonget_step (i : nat) : M unit :=
  try_catch (jsonget_item i) (fun error =>
    if continueOnFail this then
      key ← param "key" i;
      push (Out {| json := [("error", VStr (message error)); ("key", key)];
                   pairedItem := Some i |})
    else
      await "quit" [];;
      throw (NodeOperationError_of rt error (Some i))).

(** [for (let i = 0; i < items.length; i++)], from the given indices on. *)
Definition jsonget_loop (indices : list nat) : M unit :=
  for_each indices jsonget_step.

Definition op_jsonget : M unit := jsonget_loop (seq 0 (List.length items)).

(** [for (const keyName of keys)] *)
Definition iterate (what : string) (v : jsval) : result (list jsval) :=
  match v with
  | VArr elements => Ok elements
  | VStr s => Ok (VStr <$> Str.chars s)
  | _ => Thrown (TypeError (what ++ " is not iterable"))
  end.

Definition op_keys (itemIndex : nat) : M unit :=
  keyPattern ← param "keyPattern" itemIndex;
  getValues ← param_or "getValues" itemIndex (VBool true);
  keys ← await "keys" [keyPattern];
  if negb (truthy getValues) then push (plain [("keys", keys)])
  else
    names ← lift (iterate "keys" keys);
    json ← fold_m (fun json keyName =>
                     value ← getValue respond client keyName VUndefined;
                     ret (set_prop (ToString rt keyName) value json))
                  names [];
    push (Out {| json := json; pairedItem := Some itemIndex |}).

Definition op_set (itemIndex : nat) : M unit :=
  keySet ← param "key" itemIndex;
  value ← param "value" itemIndex;
  keyType ← param "keyType" itemIndex;
  valueIsJSON ← param_or "valueIsJSON" itemIndex (VBool true);
  expire ← param_or "expire" itemIndex (VBool false);
  ttl ← param_or "ttl" itemIndex (VInt (-1));
  setMode ← param_or "setMode" itemIndex (VStr "always");
  setResult ← setValue rt respond client keySet value expire ttl keyType
                       valueIsJSON setMode;
  push (Out {| json := define_prop "redis_result" setResult
                         (json (input itemIndex));
               pairedItem := Some itemIndex |}).

(** The branch for ['json.set'], an identifier that
    [per_item_operations] does not list. *)
Definition op_json_dot_set (itemIndex : nat) : M unit :=
  keySet ← param "key" itemIndex;
  value ← param "value" itemIndex;
  expire ← param_or "expire" itemIndex (VBool false);
  ttl ← param_or "ttl" itemIndex (VInt (-1));
  setMode ← param_or "setMode" itemIndex (VStr "always");
  setResult ← setValue rt respond client keySet value expire ttl setMode
                       VUndefined VUndefined;
  push (Out {| json := define_prop "redis_result" setResult
                         (json (input itemIndex));
               pairedItem := Some itemIndex |}).

Definition op_incr (itemIndex : nat) : M unit :=
  keyIncr ← param "key" itemIndex;
  expire ← param_or "expire" itemIndex (VBool false);
  ttl ← param_or "ttl" itemIndex (VInt (-1));
  incrementVal ← await "incr" [keyIncr];
  (if truthy expire && gt0 rt ttl
   then await "expire" [keyIncr; ttl];; ret tt
   else ret tt);;
  push (plain [(ToString rt keyIncr, incrementVal)]).

Definition op_publish (itemIndex : nat) : M unit :=
  channel ← param "channel" itemIndex;
  messageData ← param "messageData" itemIndex;
  await "publish" [channel; messageData];;
  push (Out (input itemIndex)).

Definition op_push (itemIndex : nat) : M unit :=
  redisList ← param "list" itemIndex;
  messageData ← param "messageData" itemIndex;
  tail ← param_or "tail" itemIndex (VBool false);
  await (if truthy tail then "rPush" else "lPush") [redisList; messageData];;
  push (Out (input itemIndex)).

Definition op_pop (itemIndex : nat) : M unit :=
  redisList ← param "list" itemIndex;
  tail ← param_or "tail" itemIndex (VBool false);
  propertyName ← param_or "propertyName" itemIndex (VStr "propertyName");
  value ← await (if truthy tail then "rPop" else "lPop") [redisList];
  let outputValue :=
    if truthy value
    then match parse value with
         | Ok parsed => parsed
         | Thrown _ => value
         end
    else value in
  json ← store itemIndex [] propertyName outputValue;
  push (Out {| json := json; pairedItem := Some itemIndex |}).

Definition op_exists (itemIndex : nat) : M unit :=
  keys ← param "keys" itemIndex;
  keyArray ← split_tokens "keys" keys;
  existsCount ← await "exists" [VArr (VStr <$> keyArray)];
  push (plain [("exists", existsCount); ("keys", VArr (VStr <$> keyArray))]).

(** [keyArray.forEach((key, index) => { result[key] = values[index]; })] *)
Fixpoint mget_result (keyArray : list string) (index : nat) (values : jsval)
    (acc : props) : result props :=
  match keyArray with
  | [] => Ok acc
  | key :: rest =>
      match get_index values index with
      | Ok v => mget_result rest (S index) values (set_prop key v acc)
      | Thrown e => Thrown e
      end
  end.

Definition op_mget (itemIndex : nat) : M unit :=
  keys ← param "keys" itemIndex;
  keyArray ← split_tokens "keys" keys;
  values ← await "mGet" [VArr (VStr <$> keyArray)];
  json ← lift (mget_result keyArray 0 values []);
  push (plain json).

Definition op_mset (itemIndex : nat) : M unit :=
  keyValuePairs ← param "keyValuePairs" itemIndex;
  pairs ← split_tokens "keyValuePairs" keyValuePairs;
  if negb (List.length pairs mod 2 =? 0)%nat then
    throw (NodeOperationError
             "Key-value pairs must be even number of arguments" None)
  else
    await "mSet" [VObj (mset_object pairs [])];;
    push (Out (input itemIndex)).

Definition op_scan (itemIndex : nat) : M unit :=
  cursor ← param "cursor" itemIndex;
  pattern ← param "pattern" itemIndex;
  count ← param "count" itemIndex;
  reply ← await "scan" [cursor; VObj [("MATCH", pattern); ("COUNT", count)]];
  next ← lift (get_prop reply "cursor");
  keys ← lift (get_prop reply "keys");
  push (plain [("cursor", next); ("keys", keys)]).

(** The branches that look up [key], issue one call on it and push
    [{ json: { key, [label]: reply } }]. *)
Definition op_key_query (command label : string) (itemIndex : nat) : M unit :=
  key ← param "key" itemIndex;
  reply ← await command [key];
  push (plain [("key", key); (label, reply)]).

Definition op_ttl := op_key_query "ttl" "ttl".
Definition op_persist := op_key_query "persist" "persisted".
Definition op_strlen := op_key_query "strLen" "length".

Definition op_expireat (itemIndex : nat) : M unit :=
  key ← param "key" itemIndex;
  timestamp ← param "timestamp" itemIndex;
  reply ← await "expireAt" [key; timestamp];
  push (plain [("key", key); ("set", reply)]).

Definition op_getset (itemIndex : nat) : M unit :=
  key ← param "key" itemIndex;
  value ← param "value" itemIndex;
  propertyName ← param "propertyName" itemIndex;
  oldValue ← await "getSet" [key; value];
  push (Out {| json := set_prop (ToString rt propertyName) oldValue [];
               pairedItem := Some itemIndex |}).

Definition op_append (itemIndex : nat) : M unit :=
  key ← param "key" itemIndex;
  value ← param "value" itemIndex;
  newLength ← await "append" [key; value];
  push (plain [("key", key); ("newLength", newLength)]).

(** blpop and brpop, which differ in the command only. *)
Definition op_blocking_pop (command : string) (itemIndex : nat) : M unit :=
  list ← param "list" itemIndex;
  timeout ← param "timeout" itemIndex;
  propertyName ← param "propertyName" itemIndex;
  reply ← await command [list; timeout];
  if truthy reply then
    element ← lift (get_prop reply "element");
    let outputValue :=
      match parse element with
      | Ok parsed => parsed
      | Thrown _ => element
      end in
    key ← lift (get_prop reply "key");
    push (Out {| json := set_prop "list" key
                           (set_prop (ToString rt propertyName) outputValue []);
                 pairedItem := Some itemIndex |})
  else
    push (Out {| json := set_prop (ToString rt propertyName) VNull [];
                 pairedItem := Some itemIndex |}).

Definition op_blpop := op_blocking_pop "blPop".
Definition op_brpop := op_blocking_pop "brPop".

(** The branches that look up one parameter [name], issue one call on it and
    push [{ json: { [name]: value, [label]: reply } }]. *)
Definition op_query (name command label : string) (itemIndex : nat) : M unit :=
  target ← param name itemIndex;
  reply ← await command [target];
  push (plain [(name, target); (label, reply)]).

Definition op_llen := op_query "list" "lLen" "length".
Definition op_scard := op_query "set" "sCard" "cardinality".
Definition op_zcard := op_query "sortedSet" "zCard" "cardinality".
Definition op_hlen := op_query "hash" "hLen" "length".
Definition op_hkeys := op_query "hash" "hKeys" "keys".
Definition op_hvals := op_query "hash" "hVals" "values".

(** sadd, srem and zrem: a key, a token list of members, one call. *)
Definition op_members (name command label : string) (itemIndex : nat)
  : M unit :=
  target ← param name itemIndex;
  members ← param "members" itemIndex;
  memberArray ← split_tokens "members" members;
  reply ← await command [target; VArr (VStr <$> memberArray)];
  push (plain [(name, target); (label, reply);
               ("members", VArr (VStr <$> memberArray))]).

Definition op_sadd := op_members "set" "sAdd" "added".
Definition op_srem := op_members "set" "sRem" "removed".
Definition op_zrem := op_members "sortedSet" "zRem" "removed".

Definition op_sismember (itemIndex : nat) : M unit :=
  set ← param "set" itemIndex;
  member ← param "member" itemIndex;
  isMember ← await "sIsMember" [set; member];
  push (plain [("set", set); ("member", member); ("isMember", isMember)]).

Definition op_zadd (itemIndex : nat) : M unit :=
  sortedSet ← param "sortedSet" itemIndex;
  scoreMembers ← param "scoreMembers" itemIndex;
  pairs ← split_tokens "scoreMembers" scoreMembers;
  if negb (List.length pairs mod 2 =? 0)%nat then
    throw (NodeOperationError
             "Score-member pairs must be even number of arguments" None)
  else
    let members := VArr (score_members pairs) in
    added ← await "zAdd" [sortedSet; members];
    push (plain [("sortedSet", sortedSet); ("added", added);
                 ("members", members)]).

Definition op_zrange (itemIndex : nat) : M unit :=
  sortedSet ← param "sortedSet" itemIndex;
  start ← param "start" itemIndex;
  stop ← param "stop" itemIndex;
  withScores ← param "withScores" itemIndex;
  reply ← await (if truthy withScores then "zRangeWithScores" else "zRange")
                [sortedSet; start; stop];
  push (plain [("sortedSet", sortedSet); ("result", reply)]).

Definition op_hexists (itemIndex : nat) : M unit :=
  hash ← param "hash" itemIndex;
  field ← param "field" itemIndex;
  exists_ ← await "hExists" [hash; field];
  push (plain [("hash", hash); ("field", field); ("exists", exists_)]).

(** [v ? v.split(/\s+/).filter((k) => k.length > 0) : []] *)
Definition optional_tokens (what : string) (v : jsval) : M (list string) :=
  if truthy v then split_tokens what v else ret [].

Definition op_eval (itemIndex : nat) : M unit :=
  script ← param "script" itemIndex;
  keys ← param_or "keys" itemIndex (VStr EmptyString);
  args ← param_or "args" itemIndex (VStr EmptyString);
  keyArray ← optional_tokens "keys" keys;
  argArray ← optional_tokens "args" args;
  reply ← await "eval" [script;
                        VObj [("keys", VArr (VStr <$> keyArray));
                              ("arguments", VArr (VStr <$> argArray))]];
  let serializedResult :=
    match reply with
    | VBigInt z => VNum (num_of_Z z)
    | _ => reply
    end in
  push (plain [("result", serializedResult)]).

(** The [try] block of the item loop: the chain of comparisons of
    [operation], in the order of the source. *)
Definition handler (operation : string) (itemIndex : nat) : M unit :=
  if String.eqb operation "delete" then op_delete itemIndex
  else if String.eqb operation "get" then op_get itemIndex
  else if String.eqb operation "jsonset" then op_jsonset
  else if String.eqb operation "jsonget" then op_jsonget
  else if String.eqb operation "keys" then op_keys itemIndex
  else if String.eqb operation "set" then op_set itemIndex
  else if String.eqb operation "json.set" then op_json_dot_set itemIndex
  else if String.eqb operation "incr" then op_incr itemIndex
  else if String.eqb operation "publish" then op_publish itemIndex
  else if String.eqb operation "push" then op_push itemIndex
  else if String.eqb operation "pop" then op_pop itemIndex
  else if String.eqb operation "exists" then op_exists itemIndex
  else if String.eqb operation "mget" then op_mget itemIndex
  else if String.eqb operation "mset" then op_mset itemIndex
  else if String.eqb operation "scan" then op_scan itemIndex
  else if String.eqb operation "ttl" then op_ttl itemIndex
  else if String.eqb operation "persist" then op_persist itemIndex
  else if String.eqb operation "expireat" then op_expireat itemIndex
  else if String.eqb operation "getset" then op_getset itemIndex
  else if String.eqb operation "append" then op_append itemIndex
  else if String.eqb operation "strlen" then op_strlen itemIndex
  else if String.eqb operation "blpop" then op_blpop itemIndex
  else if String.eqb operation "brpop" then op_brpop itemIndex
  else if String.eqb operation "llen" then op_llen itemIndex
  else if String.eqb operation "sadd" then op_sadd itemIndex
  else if String.eqb operation "srem" then op_srem itemIndex
  else if String.eqb operation "sismember" then op_sismember itemIndex
  else if String.eqb operation "scard" then op_scard itemIndex
  else if String.eqb operation "zadd" then op_zadd itemIndex
  else if String.eqb operation "zrange" then op_zrange itemIndex
  else if String.eqb operation "zrem" then op_zrem itemIndex
  else if String.eqb operation "zcard" then op_zcard itemIndex
  else if String.eqb operation "hlen" then op_hlen itemIndex
  else if String.eqb operation "hkeys" then op_hkeys itemIndex
  else if String.eqb operation "hvals" then op_hvals itemIndex
  else if String.eqb operation "hexists" then op_hexists itemIndex
  else if String.eqb operation "eval" then op_eval itemIndex
  else ret tt.

(** One turn of the item loop: the [try] block and its [catch]. *)
Definition item_step (operation : string) (itemIndex : nat) : M unit :=
  try_catch (handler operation itemIndex) (fun error =>
    if continueOnFail this then push (error_item error itemIndex)
    else
      await "quit" [];;
      throw (NodeOperationError_of rt error (Some itemIndex))).

(** [for (let itemIndex = 0; itemIndex < items.length; itemIndex++)],
    from the given indices on. *)
Definition item_loop (operation : string) (indices : list nat) : M unit :=
  for_each indices (item_step operation).

(** [convertInfoToObject(result)] on what [client.info()] resolved to. *)
Definition report_of (reply : jsval) : result (gmap string info_value) :=
  match reply with
  | VStr stringData => convertInfoToObject stringData
  | VUndefined =>
      Thrown (cannot_read "undefined" "split")
  | VNull =>
      Thrown (cannot_read "null" "split")
  | _ => Thrown (TypeError "stringData.split is not a function")
  end.

Definition op_info : M unit :=
  try_catch
    (reply ← await "info" [];
     report ← lift (report_of reply);
     push (OutReport report))
    (fun error =>
       if continueOnFail this
       then push (plain [("error", VStr (message error))])
       else
         await "quit" [];;
         throw (NodeOperationError_of rt error None)).

(** What [execute] does between the ping and the final quit. *)
Definition dispatch (operation : jsval) : M unit :=
  if is_str operation "info" then op_info
  else match operation with
       | VStr op =>
           if bool_decide (op ∈ per_item_operations)
           then item_loop op (seq 0 (List.length items))
           else ret tt
       | _ => ret tt
       end.

End Dispatcher.

Section Execute.
Context (rt : Runtime) (respond : oracle) (this : IExecuteFunctions).

Definition execute : M (list (list output)) :=
  credentials ← lift (getCredentials this);
  let client := setupRedisClient credentials in
  await respond client "connect" [];;
  await respond client "ping" [];;
  operation ← lift (getNodeParameter this "operation" 0%nat None);
  dispatch rt respond this client operation;;
  await respond client "quit" [];;
  returnItems ← get_returnItems;
  ret [returnItems].

Definition start : state := {| trace := []; returnItems := [] |}.

End Execute.

(** ** Observations and fixtures *)

Definition is_command (name : string) (c : call) : bool :=
  match c with Call command _ => String.eqb command name end.

(** How often a command occurs in a trace. *)
Definition count_calls (name : string) (t : list call) : nat :=
  List.length (List.filter (is_command name) t).

(** The connection is opened by [connect] and released by [quit]. *)
Definition opened (s : state) : nat := count_calls "connect" (trace s).
Definition closed (s : state) : nat := count_calls "quit" (trace s).

(** A computation that neither pushes an output nor opens or releases the
    connection. *)
Definition calm {A : Type} (m : M A) : Prop :=
  forall s r s', m s = (r, s') ->
    returnItems s' = returnItems s /\ opened s' = opened s /\ closed s' = closed s.

(** A computation that leaves the connection alone and pushes exactly one
    output when it completes, none when it throws. *)
Definition emits {A : Type} (m : M A) : Prop :=
  forall s r s', m s = (r, s') ->
    opened s' = opened s /\ closed s' = closed s /\
    match r with
    | Ok _ => exists o, returnItems s' = returnItems s ++ [o]
    | Thrown _ => returnItems s' = returnItems s
    end.

(** The operations whose branch handles the one item of the current turn. *)
Definition single_item (operation : string) : Prop :=
  operation <> "jsonset" /\ operation <> "jsonget".

Definition is_number (v : scalar) : bool :=
  match v with SNumber _ => true | SString _ => false end.

Definition is_digit_or_dot (c : ascii) : bool :=
  Str.is_digit c || Ascii.eqb c ".".

Fixpoint count_char (c : ascii) (s : string) : nat :=
  match s with
  | EmptyString => 0%nat
  | String d r => ((if Ascii.eqb d c then 1 else 0) + count_char c r)%nat
  end.

(** The numeric values as the specification words them: only digits and at
    most one decimal point. *)
Definition spec_numeric (value : string) : bool :=
  Str.all is_digit_or_dot value && (count_char "." value <=? 1)%nat.

Definition newline : string := String "010"%char EmptyString.

(** The report of the specification's example, line by line. *)
Definition sample_report : string :=
  String.concat newline
    ["redis_version:6.2.14"; "connected_clients:1"; "role:master"; EmptyString].

(** A platform for the examples below.  Every text they hand to
    [JSON.parse] is not JSON, so this one rejects every text and
    [JSON.stringify] is never reached; numbers are printed by their
    numerator, which is exact on integers; a path is taken as one key.
    Every error the examples wrap is a rejection of the store, which takes
    the index and keeps its message, or an error wrapped before, which is
    returned as it is. *)
Definition example_runtime : Runtime := {|
  JSON_parse := fun _ => Thrown (Err "Unexpected token in JSON" None);
  JSON_stringify := fun v => v;
  Number_toString := fun n =>
    match n with
    | NaN => "NaN"
    | Infinity negative => if negative then "-Infinity" else "Infinity"
    | Finite q => pretty (Qnum q)
    end;
  StringToNumber := parseFloat;
  lodash_set := fun o path v =>
    set_prop (match path with VStr k => k | _ => EmptyString end) v o;
  NodeOperationError_of := fun e i =>
    match itemIndex e with
    | Some _ => e
    | None => Err (message e) i
    end;
|}.

(** A store that resolves every call with [OK]. *)
Definition accepting : oracle := fun _ _ _ => Resolve (VStr "OK").

(** A store whose [set] resolves with [null] (the condition of the write is
    not met) and that resolves every other call with [OK]. *)
Definition key_taken : oracle := fun _ _ c =>
  if is_command "set" c then Resolve VNull else Resolve (VStr "OK").

(** A store that rejects [sendCommand] and resolves every other call. *)
Definition module_missing : oracle := fun _ _ c =>
  if is_command "sendCommand" c then Reject "ERR unknown command"
  else Resolve (VStr "OK").

(** A store without the keys asked for: [sendCommand] resolves with
    [null]. *)
Definition no_document : oracle := fun _ _ c =>
  if is_command "sendCommand" c then Resolve VNull else Resolve (VStr "OK").

Definition example_credential : RedisCredential := {|
  host := VStr "redis"; port := VInt 6379; database := VInt 0;
  user := VUndefined; password := VStr "random"; ssl := VUndefined;
|}.

(** A host running [operation] over [n] items [{ x: 1 }]: parameter [key]
    of item [i] is [doc0], [doc1], ..., a parameter with a fallback takes
    it, and any other parameter is the given text. *)
Definition example_host (operation : string) (isolate : bool) (n : nat)
    (text : string) : IExecuteFunctions := {|
  getCredentials := Ok example_credential;
  getNodeParameter := fun name i fallback =>
    if String.eqb name "operation" then Ok (VStr operation)
    else if String.eqb name "key" then Ok (VStr ("doc" ++ pretty i))
    else match fallback with
         | Some v => Ok v
         | None => Ok (VStr text)
         end;
  continueOnFail := isolate;
  getInputData := replicate n {| json := [("x", VInt 1)]; pairedItem := None |};
|}.

(** The raw text is handed to the store as it is: some call has it among
    its arguments. *)
Definition stores_unchanged (text : string) (calls : list call) : Prop :=
  Exists (fun c => match c with Call _ args => VStr text ∈ args end) calls.

(** The writes that store a text character by character. *)
Definition hset_per_character (keyName : jsval) (text : string) : list call :=
  imap (fun i c => Call "hSet" [keyName; VStr (pretty i); VStr c])
       (Str.chars text).

(** The branches of [setValue] for a type other than ['string']. *)
Definition write_other (rt : Runtime) (respond : oracle)
    (client keyName value valueIsJSON type : jsval) : M unit :=
  if is_str type "hash" then set_hash rt respond client keyName value valueIsJSON
  else if is_str type "list" then set_list rt respond client keyName value
  else if is_str type "sets" then
    await respond client "sAdd" [keyName; value];; mret tt
  else mret tt.

(** The state after the output [o] is pushed. *)
Definition appended (s : state) (o : output) : state :=
  {| trace := trace s; returnItems := returnItems s ++ [o] |}.

(** The state after [client.quit()] is called. *)
Definition released (s : state) : state :=
  {| trace := trace s ++ [Call "quit" []]; returnItems := returnItems s |}.

(** The error a [catch] block throws after its [await client.quit()]: the
    [NodeOperationError] made of the failure of the item and of its index,
    or the rejection of [quit]. *)
Definition propagated (rt : Runtime) (respond : oracle) (client : jsval)
    (e : error) (i : nat) (s : state) : error :=
  match respond client (trace s) (Call "quit" []) with
  | Resolve _ => NodeOperationError_of rt e (Some i)
  | Reject msg => Err msg None
  end.


(** The record the [catch] block of the jsonget loop pushes:
    [{ json: { error: error.message, key }, pairedItem: { item: i } }]. *)
Definition jsonget_error_item (key : jsval) (e : error) (i : nat) : output :=
  Out {| json := [("error", VStr (message e)); ("key", key)];
         pairedItem := Some i |}.

(** A store that rejects [del] and resolves every other call. *)
Definition read_only : oracle := fun _ _ c =>
  if is_command "del" c then Reject "READONLY" else Resolve (VStr "OK").

(** A computation that never issues the command [name]. *)
Definition avoids (name : string) {A : Type} (m : M A) : Prop :=
  forall s r s', m s = (r, s') ->
    count_calls name (trace s') = count_calls name (trace s).

(** A line that [convertInfoToObject] passes over: empty, a comment, or
    without a colon. *)
Definition passed_over (line : string) : bool :=
  Str.is_empty line || String.eqb (Str.charAt0 line) "#"
  || negb (Str.includes ":" line).

(** What [line.split(':')] gives as its second element for a line
    [key:value] whose key holds no colon: the part of [value] before its
    first colon. *)
Definition before_colon (value : string) : string :=
  match Str.split ":" value with
  | piece :: _ => piece
  | [] => EmptyString
  end.

(** A store that rejects the command [name] with [msg] and resolves every
    other call with [OK]. *)
Definition rejecting (name msg : string) : oracle := fun _ _ c =>
  if is_command name c then Reject msg else Resolve (VStr "OK").

(** A store that answers [type] with [set], the name the store gives to
    the type of a set, and resolves every other call with [OK]. *)
Definition holding_set : oracle := fun _ _ c =>
  if is_command "type" c then Resolve (VStr "set") else Resolve (VStr "OK").

(** A store whose [info] resolves with the sample report. *)
Definition reporting : oracle := fun _ _ c =>
  if is_command "info" c then Resolve (VStr sample_report)
  else Resolve (VStr "OK").

(** The writes that store the elements of a list position by position. *)
Definition lset_per_element (keyName : jsval) (elements : list string)
  : list call :=
  imap (fun i x => Call "lSet" [keyName; VInt (Z.of_nat i); VStr x]) elements.

(** The writes that store the properties of an object field by field. *)
Definition hset_per_property (rt : Runtime) (keyName : jsval) (o : props)
  : list call :=
  (fun '(key, field) => Call "hSet" [keyName; VStr key; VStr (ToString rt field)])
  <$> o.

(** A platform as [example_runtime], except that [JSON.parse] knows the one
    text [{"name":"Ada","age":36}]. *)
Definition ada_text : string :=
  "{" ++ Str.quote ++ "name" ++ Str.quote ++ ":" ++ Str.quote ++ "Ada"
  ++ Str.quote ++ "," ++ Str.quote ++ "age" ++ Str.quote ++ ":36}".

Definition ada_runtime : Runtime := {|
  JSON_parse := fun text =>
    if String.eqb text ada_text
    then Ok (VObj [("name", VStr "Ada"); ("age", VInt 36)])
    else Thrown (Err "Unexpected token in JSON" None);
  JSON_stringify := JSON_stringify example_runtime;
  Number_toString := Number_toString example_runtime;
  StringToNumber := StringToNumber example_runtime;
  lodash_set := lodash_set example_runtime;
  NodeOperationError_of := NodeOperationError_of example_runtime;
|}.

(** ** The report parser *)

Lemma sample_report_text :
  sample_report
  = ("redis_version:6.2.14" ++ newline ++ "connected_clients:1" ++ newline
     ++ "role:master" ++ newline)%string.
Proof. reflexivity. Qed.

Lemma matches_digits_dots_spec (value : string) :
  matches_digits_dots value = true
  <-> value <> EmptyString /\ Str.all is_digit_or_dot value = true.
Proof.
  unfold matches_digits_dots, is_digit_or_dot.
  rewrite andb_true_iff, negb_true_iff.
  destruct value as [|c r]; simpl; split.
  - intros [H _]; discriminate.
  - intros [H _]; congruence.
  - intros [_ H]; split; [discriminate | exact H].
  - intros [_ H]; split; [reflexivity | exact H].
Qed.

(** C6, as the code has it: a value becomes a number exactly when it is not
    empty and holds nothing but digits and decimal points, however many
    points; the number is then [parseFloat] of the value, and every other
    value is returned as the string it is. *)
Theorem getParsedValue_numeric (value : string) :
  (is_number (getParsedValue value) = true
   <-> value <> EmptyString /\ Str.all is_digit_or_dot value = true)
  /\ (getParsedValue value = SNumber (parseFloat value)
      \/ getParsedValue value = SString value).
Proof.
  rewrite <- matches_digits_dots_spec.
  unfold getParsedValue.
  destruct (matches_digits_dots value); simpl; split; auto; split; auto.
Qed.

(** C6 as stated fails: [6.2.14] holds two decimal points and is parsed
    as the number 6.2, and the empty value, which holds nothing but digits,
    stays a string. *)
Lemma getParsedValue_two_points :
  spec_numeric "6.2.14" = false
  /\ getParsedValue "6.2.14" = SNumber (decimal 62 1)
  /\ spec_numeric EmptyString = true
  /\ getParsedValue EmptyString = SString EmptyString.
Proof. repeat split; vm_compute; reflexivity. Qed.

(** C7: the parser is a function of its input, and on the sample report it
    returns the mapping of redis_version to 6.2, connected_clients to 1 and
    role to the string master. *)
Theorem convertInfoToObject_sample :
  (forall stringData, exists r,
      convertInfoToObject stringData = r
      /\ forall r', convertInfoToObject stringData = r' -> r' = r)
  /\ convertInfoToObject sample_report
     = Ok (<["redis_version" := IScalar (SNumber (decimal 62 1))]>
           (<["connected_clients" := IScalar (SNumber (decimal 1 0))]>
            (<["role" := IScalar (SString "master")]> ∅))).
Proof.
  split.
  - intros stringData. eexists; split; [reflexivity | congruence].
  - vm_compute. reflexivity.
Qed.

(** ** The monad *)

Lemma run_bind {A B : Type} (m : M A) (k : A -> M B) (s : state) :
  (m ≫= k) s = match m s with
               | (Ok a, s') => k a s'
               | (Thrown e, s') => (Thrown e, s')
               end.
Proof. reflexivity. Qed.

Lemma run_lift {A : Type} (r : result A) (s : state) : lift r s = (r, s).
Proof. reflexivity. Qed.

Lemma run_ret {A : Type} (a : A) (s : state) : mret (M := M) a s = (Ok a, s).
Proof. reflexivity. Qed.

Lemma is_str_eq (v : jsval) (lit : string) :
  is_str v lit = true <-> v = VStr lit.
Proof.
  destruct v; simpl; try (split; [discriminate | congruence]).
  rewrite String.eqb_eq. split; congruence.
Qed.

(** ** setValue *)

Lemma is_conditional_cases (setMode : jsval) :
  is_conditional setMode = true -> setMode = VStr "nx" \/ setMode = VStr "xx".
Proof.
  unfold is_conditional. rewrite orb_true_iff, !is_str_eq. tauto.
Qed.

Lemma setOptions_conditional (rt : Runtime) (expire ttl setMode : jsval) :
  is_conditional setMode = true ->
  (0 <? List.length (setOptions rt expire ttl setMode))%nat = true.
Proof.
  intros [-> | ->]%is_conditional_cases; unfold setOptions; simpl;
    destruct (truthy expire && gt0 rt ttl); reflexivity.
Qed.

(** C4: a string write under [nx] or [xx] whose [set] call resolves with
    [null] returns a result, not an error; the result has [success: false]
    and the reason [key_already_exists] under [nx], [key_does_not_exist]
    under [xx], and the [set] call is the only call made. *)
Theorem setValue_condition_not_met (rt : Runtime) (respond : oracle)
    (client keyName value expire ttl type valueIsJSON setMode : jsval)
    (text : string) (s : state) :
  resolve_type value type = Ok (VStr "string") ->
  is_conditional setMode = true ->
  toString rt value = Ok text ->
  respond client (trace s)
    (Call "set" [keyName; VStr text; VObj (setOptions rt expire ttl setMode)])
  = Resolve VNull ->
  exists fields,
    setValue rt respond client keyName value expire ttl type valueIsJSON
             setMode s
    = (Ok (VObj fields),
       {| trace := trace s ++ [Call "set" [keyName; VStr text;
                                 VObj (setOptions rt expire ttl setMode)]];
          returnItems := returnItems s |})
    /\ lookup_prop "success" fields = Some (VBool false)
    /\ lookup_prop "reason" fields
       = Some (VStr (if is_str setMode "nx" then "key_already_exists"
                     else "key_does_not_exist")).
Proof.
  intros Htype Hmode Htext Hreply.
  unfold setValue. rewrite run_bind, run_lift, Htype. simpl is_str.
  rewrite run_bind. unfold set_string.
  rewrite (setOptions_conditional _ _ _ _ Hmode).
  rewrite run_bind, run_lift, Htext, run_bind.
  unfold await at 1. rewrite Hreply. simpl is_null. rewrite Hmode. simpl andb.
  destruct (is_conditional_cases _ Hmode) as [-> | ->];
    (eexists; split; [reflexivity | split; reflexivity]).
Qed.

Lemma setValue_condition_not_met_witness :
  exists fields,
    setValue example_runtime key_taken VNull (VStr "lock") (VStr "owner")
             (VBool true) (VInt 30) (VStr "automatic") (VBool true)
             (VStr "nx") start
    = (Ok (VObj fields),
       {| trace := [Call "set" [VStr "lock"; VStr "owner";
                      VObj [("EX", VInt 30); ("NX", VBool true)]]];
          returnItems := [] |})
    /\ lookup_prop "success" fields = Some (VBool false)
    /\ lookup_prop "reason" fields = Some (VStr "key_already_exists").
Proof.
  apply (setValue_condition_not_met example_runtime key_taken VNull
           (VStr "lock") (VStr "owner") (VBool true) (VInt 30)
           (VStr "automatic") (VBool true) (VStr "nx") "owner" start);
    reflexivity.
Defined.

(** Case analysis on the outcome of the computation run from [s]. *)
Ltac split_run s :=
  match goal with
  | |- context [?m s] =>
      match type of (m s) with
      | (result _ * state)%type => destruct (m s) as [[?|?] ?] eqn:?
      end
  end.

Lemma setValue_non_string (rt : Runtime) (respond : oracle)
    (client keyName value expire ttl type valueIsJSON setMode t : jsval)
    (s : state) :
  resolve_type value type = Ok t ->
  is_str t "string" = false ->
  setValue rt respond client keyName value expire ttl type valueIsJSON setMode s
  = match write_other rt respond client keyName value valueIsJSON t s with
    | (Ok _, s1) => set_finish rt respond client keyName expire ttl t setMode s1
    | (Thrown e, s1) => (Thrown e, s1)
    end.
Proof.
  intros Htype Hnot.
  unfold setValue, write_other.
  rewrite run_bind, run_lift, Htype, run_bind, Hnot.
  destruct (is_str t "hash");
    [| destruct (is_str t "list"); [| destruct (is_str t "sets")]];
    rewrite ?run_bind, ?run_ret; try split_run s; reflexivity.
Qed.

Lemma set_finish_state (rt : Runtime) (respond : oracle)
    (client keyName expire ttl t setMode setMode' : jsval) (s : state) :
  (set_finish rt respond client keyName expire ttl t setMode s).2
  = (set_finish rt respond client keyName expire ttl t setMode' s).2.
Proof.
  unfold set_finish. rewrite !run_bind. split_run s; reflexivity.
Qed.

Lemma set_finish_result (rt : Runtime) (respond : oracle)
    (client keyName expire ttl t setMode r : jsval) (s s' : state) :
  set_finish rt respond client keyName expire ttl t setMode s = (Ok r, s') ->
  exists label,
    r = VObj [("success", VBool true); ("operation", VStr label);
              ("key", keyName)].
Proof.
  unfold set_finish. rewrite run_bind. split_run s; [| discriminate].
  rewrite run_lift. unfold success_result.
  destruct (if truthy setMode then _ else _) as [label|]; [| discriminate].
  intros [= <- _]. eauto.
Qed.

(** C10: when the resolved type is hash, list or sets, two calls that
    differ in [setMode] only leave the same trace of store calls, and a
    result that is returned is [{ success: true, operation, key }]; whatever
    the arguments, a result with [success: false] comes from a write whose
    resolved type is string. *)
Theorem setValue_mode_only_for_strings (rt : Runtime) (respond : oracle)
    (client keyName value expire ttl type valueIsJSON : jsval)
    (resolved : string) :
  resolve_type value type = Ok (VStr resolved) ->
  resolved = "hash" \/ resolved = "list" \/ resolved = "sets" ->
  (forall setMode setMode' s,
     (setValue rt respond client keyName value expire ttl type valueIsJSON
               setMode s).2
     = (setValue rt respond client keyName value expire ttl type valueIsJSON
                 setMode' s).2)
  /\ (forall setMode s r s',
        setValue rt respond client keyName value expire ttl type valueIsJSON
                 setMode s = (Ok r, s') ->
        exists label,
          r = VObj [("success", VBool true); ("operation", VStr label);
                    ("key", keyName)])
  /\ (forall value' type' valueIsJSON' setMode s fields s',
        setValue rt respond client keyName value' expire ttl type'
                 valueIsJSON' setMode s = (Ok (VObj fields), s') ->
        lookup_prop "success" fields = Some (VBool false) ->
        resolve_type value' type' = Ok (VStr "string")).
Proof.
  intros Htype Hin.
  assert (Hnot : is_str (VStr resolved) "string" = false).
  { destruct Hin as [-> | [-> | ->]]; reflexivity. }
  split; [| split].
  - intros setMode setMode' s.
    rewrite !(setValue_non_string _ _ _ _ _ _ _ _ _ _ _ _ Htype Hnot).
    destruct (write_other _ _ _ _ _ _ _ s) as [[?|?] s1]; [| reflexivity].
    apply set_finish_state.
  - intros setMode s r s'.
    rewrite (setValue_non_string _ _ _ _ _ _ _ _ _ _ _ _ Htype Hnot).
    destruct (write_other _ _ _ _ _ _ _ s) as [[?|?] s1]; [| discriminate].
    apply set_finish_result.
  - intros value' type' valueIsJSON' setMode s fields s' Hrun Hfalse.
    destruct (resolve_type value' type') as [t|e] eqn:Ht.
    + destruct (is_str t "string") eqn:Hs.
      * apply is_str_eq in Hs. congruence.
      * rewrite (setValue_non_string _ _ _ _ _ _ _ _ _ _ _ _ Ht Hs) in Hrun.
        destruct (write_other _ _ _ _ _ _ _ s) as [[?|?] s1]; [| discriminate].
        apply set_finish_result in Hrun as [label [= ->]].
        discriminate.
    + unfold setValue in Hrun. rewrite run_bind, run_lift, Ht in Hrun.
      discriminate.
Qed.

Lemma setValue_mode_only_for_strings_witness :
  (forall setMode setMode' s,
     (setValue example_runtime accepting VNull (VStr "tags")
               (VArr [VStr "a"; VStr "b"]) (VBool false) (VInt 0)
               (VStr "automatic") (VBool true) setMode s).2
     = (setValue example_runtime accepting VNull (VStr "tags")
                 (VArr [VStr "a"; VStr "b"]) (VBool false) (VInt 0)
                 (VStr "automatic") (VBool true) setMode' s).2)
  /\ (forall setMode s r s',
        setValue example_runtime accepting VNull (VStr "tags")
                 (VArr [VStr "a"; VStr "b"]) (VBool false) (VInt 0)
                 (VStr "automatic") (VBool true) setMode s = (Ok r, s') ->
        exists label,
          r = VObj [("success", VBool true); ("operation", VStr label);
                    ("key", VStr "tags")])
  /\ (forall value' type' valueIsJSON' setMode s fields s',
        setValue example_runtime accepting VNull (VStr "tags") value'
                 (VBool false) (VInt 0) type' valueIsJSON' setMode s
        = (Ok (VObj fields), s') ->
        lookup_prop "success" fields = Some (VBool false) ->
        resolve_type value' type' = Ok (VStr "string")).
Proof.
  apply (setValue_mode_only_for_strings example_runtime accepting VNull
           (VStr "tags") (VArr [VStr "a"; VStr "b"]) (VBool false) (VInt 0)
           (VStr "automatic") (VBool true) "list").
  - reflexivity.
  - right; left; reflexivity.
Defined.

(** Under a store that resolves every call, writing the characters of a
    text field by field never stops early. *)
Lemma hset_characters (rt : Runtime) (respond : oracle)
    (client keyName : jsval) (chars : list string) :
  (forall history c, exists v, respond client history c = Resolve v) ->
  forall (key_of : nat -> string) (s : state),
    for_each (imap (fun i c => (key_of i, VStr c)) chars)
      (fun '(key, field) =>
         text ← lift (toString rt field);
         await respond client "hSet" [keyName; VStr key; VStr text];;
         ret tt) s
    = (Ok tt,
       {| trace := trace s
                   ++ imap (fun i c => Call "hSet" [keyName; VStr (key_of i); VStr c])
                           chars;
          returnItems := returnItems s |}).
Proof.
  intros Haccept.
  induction chars as [|c chars IH]; intros key_of s.
  - simpl. rewrite app_nil_r. destruct s; reflexivity.
  - simpl for_each. rewrite run_bind, run_bind, run_lift. simpl toString.
    rewrite run_bind. unfold await at 1.
    destruct (Haccept (trace s) (Call "hSet" [keyName; VStr (key_of 0%nat); VStr c]))
      as [v ->].
    unfold ret at 1.
    specialize (IH (key_of ∘ S)). unfold compose in IH at 1.
    erewrite IH. simpl. rewrite <- app_assoc. reflexivity.
Qed.

Lemma hset_text (rt : Runtime) (respond : oracle)
    (client keyName : jsval) (text : string) (s : state) :
  (forall history c, exists v, respond client history c = Resolve v) ->
  for_each (indexed (VStr <$> Str.chars text))
    (fun '(key, field) =>
       text ← lift (toString rt field);
       await respond client "hSet" [keyName; VStr key; VStr text];;
       ret tt) s
  = (Ok tt,
     {| trace := trace s ++ hset_per_character keyName text;
        returnItems := returnItems s |}).
Proof.
  intros Haccept. unfold indexed, hset_per_character. rewrite imap_fmap.
  apply (hset_characters rt respond client keyName (Str.chars text) Haccept
           pretty s).
Qed.

(** C8, as the code has it: when the text of a JSON-flagged hash write
    does not parse, the text itself takes the place of the parsed object and
    is written as an object is, key by key; the keys of a text are its
    character positions, so under a store that resolves every call the
    calls are one [hSet(key, i, c)] for each character [c] at position [i]
    (none for the empty text), followed by [expire] when a positive
    expiration was asked for. *)
Theorem setValue_hash_unparsed_text (rt : Runtime) (respond : oracle)
    (client keyName expire ttl valueIsJSON setMode : jsval) (text : string)
    (e : error) (s : state) :
  truthy valueIsJSON = true ->
  JSON_parse rt text = Thrown e ->
  (forall history c, exists v, respond client history c = Resolve v) ->
  trace (setValue rt respond client keyName (VStr text) expire ttl
                  (VStr "hash") valueIsJSON setMode s).2
  = trace s ++ hset_per_character keyName text
    ++ (if truthy expire && gt0 rt ttl
        then [Call "expire" [keyName; ttl]] else []).
Proof.
  intros Hjson Hparse Haccept.
  rewrite (setValue_non_string rt respond client keyName (VStr text) expire
             ttl (VStr "hash") valueIsJSON setMode (VStr "hash") s
             eq_refl eq_refl).
  unfold write_other. change (is_str (VStr "hash") "hash") with true. cbv iota.
  unfold set_hash. rewrite Hjson, Hparse.
  rewrite run_bind, run_lift.
  change (own_entries (VStr text)) with (Ok (indexed (VStr <$> Str.chars text))).
  cbv iota beta.
  rewrite (hset_text rt respond client keyName text s Haccept).
  unfold set_finish. rewrite run_bind. simpl negb. rewrite andb_true_r.
  destruct (truthy expire && gt0 rt ttl).
  - rewrite run_bind. unfold await at 1. simpl trace.
    match goal with
    | |- context [respond client ?h ?c] => destruct (Haccept h c) as [v ->]
    end.
    rewrite run_ret, run_lift. simpl. rewrite <- app_assoc. reflexivity.
  - rewrite run_ret, run_lift. simpl. rewrite app_nil_r. reflexivity.
Qed.

Lemma setValue_hash_unparsed_text_witness :
  trace (setValue example_runtime accepting VNull (VStr "user:1")
                  (VStr "hi") (VBool true) (VInt 60) (VStr "hash")
                  (VBool true) (VStr "always") start).2
  = [Call "hSet" [VStr "user:1"; VStr "0"; VStr "h"];
     Call "hSet" [VStr "user:1"; VStr "1"; VStr "i"];
     Call "expire" [VStr "user:1"; VInt 60]].
Proof.
  apply (setValue_hash_unparsed_text example_runtime accepting VNull
           (VStr "user:1") (VBool true) (VInt 60) (VBool true)
           (VStr "always") "hi" (Err "Unexpected token in JSON" None) start).
  - reflexivity.
  - reflexivity.
  - intros history c. exists (VStr "OK"). reflexivity.
Defined.

(** C8 as stated fails: the text [hello], which is not JSON, is not
    handed to the store in any call; it is written as the five fields
    0 to 4 holding one character each. *)
Lemma setValue_hash_splits_text :
  trace (setValue example_runtime accepting VNull (VStr "user:1")
                  (VStr "hello") (VBool false) (VInt (-1)) (VStr "hash")
                  (VBool true) (VStr "always") start).2
  = [Call "hSet" [VStr "user:1"; VStr "0"; VStr "h"];
     Call "hSet" [VStr "user:1"; VStr "1"; VStr "e"];
     Call "hSet" [VStr "user:1"; VStr "2"; VStr "l"];
     Call "hSet" [VStr "user:1"; VStr "3"; VStr "l"];
     Call "hSet" [VStr "user:1"; VStr "4"; VStr "o"]]
  /\ ~ stores_unchanged "hello"
         (trace (setValue example_runtime accepting VNull (VStr "user:1")
                          (VStr "hello") (VBool false) (VInt (-1))
                          (VStr "hash") (VBool true) (VStr "always") start).2).
Proof.
  split; [vm_compute; reflexivity |].
  unfold stores_unchanged. rewrite Exists_exists.
  intros [c [Hin Hc]]. vm_compute in Hin.
  repeat (apply elem_of_cons in Hin as [-> | Hin];
          [repeat (apply elem_of_cons in Hc as [Hc | Hc]; [discriminate |]);
           apply elem_of_nil in Hc; contradiction |]).
  apply elem_of_nil in Hin. contradiction.
Qed.

(** ** The dispatcher *)

Lemma per_item_operations_count : List.length per_item_operations = 36%nat.
Proof. reflexivity. Qed.

(** C9: when the operation is neither [info] nor one of the operations of
    the per-item branch, and the store resolves [connect], [ping] and
    [quit], [execute] makes just these three calls and returns one empty
    batch; it raises no error. *)
Theorem execute_unknown_operation (rt : Runtime) (respond : oracle)
    (this : IExecuteFunctions) (credentials : RedisCredential)
    (operation v1 v2 v3 : jsval) :
  getCredentials this = Ok credentials ->
  getNodeParameter this "operation" 0%nat None = Ok operation ->
  operation <> VStr "info" ->
  (forall op, operation = VStr op -> op ∉ per_item_operations) ->
  respond (setupRedisClient credentials) [] (Call "connect" []) = Resolve v1 ->
  respond (setupRedisClient credentials) [Call "connect" []] (Call "ping" [])
  = Resolve v2 ->
  respond (setupRedisClient credentials) [Call "connect" []; Call "ping" []]
          (Call "quit" []) = Resolve v3 ->
  execute rt respond this start
  = (Ok [[]],
     {| trace := [Call "connect" []; Call "ping" []; Call "quit" []];
        returnItems := [] |}).
Proof.
  intros Hcred Hop Hinfo Hlist Hconnect Hping Hquit.
  unfold execute.
  rewrite run_bind, run_lift, Hcred, run_bind.
  unfold await at 1. simpl trace. rewrite Hconnect.
  rewrite run_bind. unfold await at 1. simpl trace. rewrite Hping.
  rewrite run_bind, run_lift, Hop, run_bind.
  assert (Hnone : dispatch rt respond this (setupRedisClient credentials) operation
                  = mret tt).
  { unfold dispatch.
    destruct (is_str operation "info") eqn:Hi.
    - apply is_str_eq in Hi. contradiction.
    - destruct operation; try reflexivity.
      rewrite bool_decide_eq_false_2; [reflexivity |].
      apply Hlist. reflexivity. }
  rewrite Hnone, run_ret, run_bind.
  unfold await at 1. simpl trace. rewrite Hquit.
  reflexivity.
Qed.

Lemma execute_unknown_operation_witness :
  execute example_runtime accepting (example_host "json.set" false 2 "value") start
  = (Ok [[]],
     {| trace := [Call "connect" []; Call "ping" []; Call "quit" []];
        returnItems := [] |}).
Proof.
  apply (execute_unknown_operation example_runtime accepting
           (example_host "json.set" false 2 "value") example_credential
           (VStr "json.set") (VStr "OK") (VStr "OK") (VStr "OK"));
    try reflexivity.
  - discriminate.
  - intros op [= <-]. vm_compute. intros H.
    repeat (apply elem_of_cons in H as [H | H]; [discriminate |]).
    apply elem_of_nil in H. contradiction.
Defined.

(** *** Computations that leave outputs and connection alone *)

Lemma count_calls_snoc (name : string) (t : list call) (c : call) :
  count_calls name (t ++ [c])
  = (count_calls name t + if is_command name c then 1 else 0)%nat.
Proof.
  unfold count_calls. rewrite List.filter_app, List.length_app. simpl.
  destruct (is_command name c); reflexivity.
Qed.

Lemma calm_ret {A : Type} (a : A) : calm (ret a).
Proof. intros s r s' [= <- <-]. auto. Qed.

Lemma calm_mret {A : Type} (a : A) : calm (mret (M := M) a).
Proof. apply calm_ret. Qed.

Lemma calm_throw {A : Type} (e : error) : calm (throw (A := A) e).
Proof. intros s r s' [= <- <-]. auto. Qed.

Lemma calm_lift {A : Type} (r : result A) : calm (lift r).
Proof. intros s r' s' [= <- <-]. auto. Qed.

Lemma calm_bind {A B : Type} (m : M A) (k : A -> M B) :
  calm m -> (forall a, calm (k a)) -> calm (m ≫= k).
Proof.
  intros Hm Hk s r s'. rewrite run_bind.
  destruct (m s) as [[a|e] s1] eqn:E; apply Hm in E as (E1 & E2 & E3).
  - intros H. apply Hk in H as (H1 & H2 & H3). split; [| split]; congruence.
  - intros [= <- <-]. auto.
Qed.

Lemma calm_await (respond : oracle) (client : jsval) (command : string)
    (args : list jsval) :
  String.eqb command "connect" = false ->
  String.eqb command "quit" = false ->
  calm (await respond client command args).
Proof.
  intros Hc Hq s r s'. unfold await.
  destruct (respond client (trace s) (Call command args));
    intros [= <- <-]; unfold opened, closed; simpl;
    rewrite !count_calls_snoc; simpl; rewrite Hc, Hq; auto with arith.
Qed.

Lemma calm_for_each {A : Type} (l : list A) (body : A -> M unit) :
  (forall x, calm (body x)) -> calm (for_each l body).
Proof.
  intros Hbody. induction l as [|x l IH]; simpl.
  - apply calm_ret.
  - apply calm_bind; [apply Hbody | intros _; exact IH].
Qed.

Lemma calm_fold_m {A B : Type} (f : B -> A -> M B) (l : list A) (acc : B) :
  (forall acc x, calm (f acc x)) -> calm (fold_m f l acc).
Proof.
  intros Hf. revert acc. induction l as [|x l IH]; intros acc; simpl.
  - apply calm_ret.
  - apply calm_bind; [apply Hf | intros acc'; apply IH].
Qed.

Create HintDb calm discriminated.

#[export] Hint Resolve calm_ret calm_mret calm_throw calm_lift : calm.

(** One step of a proof that a computation is calm: the shape of the
    computation decides. *)
Ltac calm_step :=
  first
    [ apply calm_ret | apply calm_mret | apply calm_throw | apply calm_lift
    | apply calm_await; reflexivity
    | solve [auto with calm]
    | apply calm_for_each; intros ?
    | apply calm_fold_m; intros ? ?
    | apply calm_bind; [| intros ?]
    | match goal with
      | |- calm (await _ _ (if ?b then _ else _) _) => destruct b
      | |- calm (if ?b then _ else _) => destruct b
      | |- calm (match ?x with _ => _ end) => destruct x
      end ].

Ltac calm_auto := repeat calm_step.

Lemma calm_getValue (respond : oracle) (client keyName type : jsval) :
  calm (getValue respond client keyName type).
Proof. unfold getValue. calm_auto. Qed.

Lemma calm_setValue (rt : Runtime) (respond : oracle)
    (client keyName value expire ttl type valueIsJSON setMode : jsval) :
  calm (setValue rt respond client keyName value expire ttl type valueIsJSON
                 setMode).
Proof.
  unfold setValue, set_string, set_hash, set_list, set_finish. calm_auto.
Qed.

Lemma calm_param (this : IExecuteFunctions) (name : string) (i : nat) :
  calm (param this name i).
Proof. apply calm_lift. Qed.

Lemma calm_param_or (this : IExecuteFunctions) (name : string) (i : nat)
    (fallback : jsval) :
  calm (param_or this name i fallback).
Proof. apply calm_lift. Qed.

Lemma calm_split_tokens (what : string) (v : jsval) :
  calm (split_tokens what v).
Proof. unfold split_tokens. calm_auto. Qed.

Lemma calm_optional_tokens (what : string) (v : jsval) :
  calm (optional_tokens what v).
Proof. unfold optional_tokens. calm_auto. apply calm_split_tokens. Qed.

Lemma calm_store (rt : Runtime) (this : IExecuteFunctions) (i : nat)
    (json : props) (propertyName value : jsval) :
  calm (store rt this i json propertyName value).
Proof. unfold store. calm_auto; apply calm_param_or. Qed.

#[export] Hint Resolve calm_getValue calm_setValue calm_param calm_param_or
  calm_split_tokens calm_optional_tokens calm_store : calm.

(** *** Computations that push one output *)

Lemma emits_push (o : output) : emits (push o).
Proof.
  intros s r s' [= <- <-]. unfold opened, closed. simpl. eauto.
Qed.

Lemma emits_throw {A : Type} (e : error) : emits (throw (A := A) e).
Proof. intros s r s' [= <- <-]. auto. Qed.

Lemma emits_bind {A B : Type} (m : M A) (k : A -> M B) :
  calm m -> (forall a, emits (k a)) -> emits (m ≫= k).
Proof.
  intros Hm Hk s r s'. rewrite run_bind.
  destruct (m s) as [[a|e] s1] eqn:E; apply Hm in E as (E1 & E2 & E3).
  - intros H. apply Hk in H as (H1 & H2 & H3).
    rewrite H1, H2, E2, E3. repeat split; try reflexivity.
    destruct r; rewrite <- E1; exact H3.
  - intros [= <- <-]. auto.
Qed.

Ltac emits_step :=
  first
    [ apply emits_push | apply emits_throw
    | apply emits_bind; [solve [calm_auto] | intros ?]
    | match goal with
      | |- emits (if ?b then _ else _) => destruct b
      | |- emits (match ?x with _ => _ end) => destruct x
      end ].

Ltac emits_auto := repeat emits_step.

Section Handlers.
Context (rt : Runtime) (respond : oracle) (this : IExecuteFunctions).
Context (client : jsval).

Ltac op_emits op := unfold op; emits_auto.

Lemma emits_key_query (command label : string) (i : nat) :
  String.eqb command "connect" = false ->
  String.eqb command "quit" = false ->
  emits (op_key_query respond this client command label i).
Proof.
  intros Hc Hq. unfold op_key_query.
  apply emits_bind; [calm_auto | intros key].
  apply emits_bind; [apply calm_await; assumption | intros reply].
  apply emits_push.
Qed.

Lemma emits_query (name command label : string) (i : nat) :
  String.eqb command "connect" = false ->
  String.eqb command "quit" = false ->
  emits (op_query respond this client name command label i).
Proof.
  intros Hc Hq. unfold op_query.
  apply emits_bind; [calm_auto | intros key].
  apply emits_bind; [apply calm_await; assumption | intros reply].
  apply emits_push.
Qed.

Lemma emits_members (name command label : string) (i : nat) :
  String.eqb command "connect" = false ->
  String.eqb command "quit" = false ->
  emits (op_members respond this client name command label i).
Proof.
  intros Hc Hq. unfold op_members.
  do 3 (apply emits_bind; [calm_auto | intros ?]).
  apply emits_bind; [apply calm_await; assumption | intros reply].
  apply emits_push.
Qed.

Lemma emits_blocking_pop (command : string) (i : nat) :
  String.eqb command "connect" = false ->
  String.eqb command "quit" = false ->
  emits (op_blocking_pop rt respond this client command i).
Proof.
  intros Hc Hq. unfold op_blocking_pop.
  do 3 (apply emits_bind; [calm_auto | intros ?]).
  apply emits_bind; [apply calm_await; assumption | intros reply].
  emits_auto.
Qed.

(** Every branch that handles the item of the current turn pushes exactly
    one output when it completes and none when it throws, and it neither
    opens nor releases the connection. *)
Lemma handler_emits (operation : string) (i : nat) :
  operation ∈ per_item_operations ->
  single_item operation ->
  emits (handler rt respond this client operation i).
Proof.
  intros Hin [Hset Hget]. unfold per_item_operations in Hin.
  repeat (apply elem_of_cons in Hin as [-> | Hin];
          [try contradiction;
           lazy beta iota delta [handler String.eqb Ascii.eqb Bool.eqb] |]).
  all: try (apply elem_of_nil in Hin; contradiction).
  - op_emits op_delete.
  - op_emits op_get.
  - op_emits op_keys.
  - op_emits op_set.
  - op_emits op_incr.
  - op_emits op_publish.
  - op_emits op_push.
  - op_emits op_pop.
  - op_emits op_exists.
  - op_emits op_mget.
  - op_emits op_mset.
  - op_emits op_scan.
  - apply emits_key_query; reflexivity.
  - apply emits_key_query; reflexivity.
  - op_emits op_expireat.
  - op_emits op_getset.
  - op_emits op_append.
  - apply emits_key_query; reflexivity.
  - apply emits_blocking_pop; reflexivity.
  - apply emits_blocking_pop; reflexivity.
  - apply emits_query; reflexivity.
  - apply emits_members; reflexivity.
  - apply emits_members; reflexivity.
  - op_emits op_sismember.
  - apply emits_query; reflexivity.
  - op_emits op_zadd.
  - op_emits op_zrange.
  - apply emits_members; reflexivity.
  - apply emits_query; reflexivity.
  - apply emits_query; reflexivity.
  - apply emits_query; reflexivity.
  - apply emits_query; reflexivity.
  - op_emits op_hexists.
  - op_emits op_eval.
Qed.

End Handlers.

(** *** Parameter validation *)

Lemma split_ws_pieces (in_run : bool) (s : string) :
  Forall (fun t => Str.all (fun c => negb (Str.is_space c)) t = true)
         (Str.split_ws_from in_run s).
Proof.
  revert in_run. induction s as [|c r IH]; intros in_run; simpl.
  - repeat constructor.
  - destruct (Str.is_space c) eqn:Hc.
    + destruct in_run; [apply IH | constructor; [reflexivity | apply IH]].
    + specialize (IH false).
      destruct (Str.split_ws_from false r) as [|w ws].
      * repeat constructor. simpl. rewrite Hc. reflexivity.
      * apply Forall_cons in IH as [Hw Hws].
        constructor; [| exact Hws]. simpl. rewrite Hc. exact Hw.
Qed.

(** X14: the tokens of a list parameter are not empty and hold no white
    space. *)
Lemma tokens_spec (s : string) :
  Forall (fun t => t <> EmptyString
                   /\ Str.all (fun c => negb (Str.is_space c)) t = true)
         (Str.tokens s).
Proof.
  unfold Str.tokens, Str.split_ws.
  induction (split_ws_pieces false s) as [|t l Ht Hl IH]; simpl.
  - constructor.
  - destruct t; simpl; [exact IH |].
    constructor; [split; [discriminate | exact Ht] | exact IH].
Qed.

(** C5: when the tokens of the pair list are odd in number, the branch of
    [mset] and the branch of [zadd] throw the validation error of the
    operation and leave the state as it was: no call reaches the store. *)
Theorem odd_pairs_rejected (rt : Runtime) (respond : oracle)
    (this : IExecuteFunctions) (client : jsval) (i : nat) (text : string)
    (s : state) :
  (List.length (Str.tokens text) mod 2 = 1)%nat ->
  (getNodeParameter this "keyValuePairs" i None = Ok (VStr text) ->
   handler rt respond this client "mset" i s
   = (Thrown (NodeOperationError
                "Key-value pairs must be even number of arguments" None), s))
  /\ (forall sortedSet,
        getNodeParameter this "sortedSet" i None = Ok sortedSet ->
        getNodeParameter this "scoreMembers" i None = Ok (VStr text) ->
        handler rt respond this client "zadd" i s
        = (Thrown (NodeOperationError
                     "Score-member pairs must be even number of arguments" None),
           s)).
Proof.
  intros Hodd. split.
  - intros Hpairs.
    change (handler rt respond this client "mset" i)
      with (op_mset respond this client i).
    unfold op_mset, param.
    rewrite run_bind, run_lift, Hpairs, run_bind. simpl split_tokens.
    rewrite run_ret, Hodd. reflexivity.
  - intros sortedSet Hset Hpairs.
    change (handler rt respond this client "zadd" i)
      with (op_zadd respond this client i).
    unfold op_zadd, param.
    rewrite run_bind, run_lift, Hset, run_bind, run_lift, Hpairs, run_bind.
    simpl split_tokens. rewrite run_ret, Hodd. reflexivity.
Qed.

Lemma odd_pairs_rejected_witness :
  handler example_runtime accepting
          (example_host "mset" false 1 "key1 value1 key2") VNull "mset" 0 start
  = (Thrown (NodeOperationError
               "Key-value pairs must be even number of arguments" None), start)
  /\ handler example_runtime accepting
             (example_host "zadd" false 1 "1 one 2") VNull "zadd" 0 start
     = (Thrown (NodeOperationError
                  "Score-member pairs must be even number of arguments" None),
        start).
Proof.
  split.
  - apply (odd_pairs_rejected example_runtime accepting
             (example_host "mset" false 1 "key1 value1 key2") VNull 0%nat
             "key1 value1 key2" start); reflexivity.
  - apply (odd_pairs_rejected example_runtime accepting
             (example_host "zadd" false 1 "1 one 2") VNull 0%nat
             "1 one 2" start eq_refl) with (sortedSet := VStr "1 one 2");
      reflexivity.
Defined.

(** *** Failure isolation *)

Lemma run_for_each_cons {A : Type} (x : A) (rest : list A) (body : A -> M unit)
    (s : state) :
  for_each (x :: rest) body s
  = match body x s with
    | (Ok _, s') => for_each rest body s'
    | (Thrown e, s') => (Thrown e, s')
    end.
Proof. reflexivity. Qed.

Lemma quit_and_throw (rt : Runtime) (respond : oracle) (client : jsval)
    (e : error) (i : nat) (s : state) :
  (await respond client "quit" [];;
   throw (A := unit) (NodeOperationError_of rt e (Some i))) s
  = (Thrown (propagated rt respond client e i s), released s).
Proof.
  rewrite run_bind. unfold await, propagated, released.
  destruct (respond client (trace s) (Call "quit" [])); reflexivity.
Qed.

Lemma item_step_thrown (rt : Runtime) (respond : oracle)
    (this : IExecuteFunctions) (client : jsval) (operation : string)
    (i : nat) (s s1 : state) (e : error) :
  handler rt respond this client operation i s = (Thrown e, s1) ->
  item_step rt respond this client operation i s
  = if continueOnFail this then (Ok tt, appended s1 (error_item e i))
    else (Thrown (propagated rt respond client e i s1), released s1).
Proof.
  intros Hbody. unfold item_step, try_catch. rewrite Hbody.
  destruct (continueOnFail this); [reflexivity | apply quit_and_throw].
Qed.


Lemma jsonget_step_thrown (rt : Runtime) (respond : oracle)
    (this : IExecuteFunctions) (client : jsval) (i : nat) (s s1 : state)
    (e : error) :
  jsonget_item rt respond this client i s = (Thrown e, s1) ->
  jsonget_step rt respond this client i s
  = if continueOnFail this then
      match getNodeParameter this "key" i None with
      | Ok key => (Ok tt, appended s1 (jsonget_error_item key e i))
      | Thrown e' => (Thrown e', s1)
      end
    else (Thrown (propagated rt respond client e i s1), released s1).
Proof.
  intros Hbody. unfold jsonget_step, try_catch. rewrite Hbody.
  destruct (continueOnFail this); [| apply quit_and_throw].
  unfold param. rewrite run_bind, run_lift.
  destruct (getNodeParameter this "key" i None); reflexivity.
Qed.



(** When the key of an item cannot be read, the [try] block of jsonget
    fails on that reading before any call, and under isolation its [catch]
    block fails on the same reading: the jsonget loop throws that failure
    and pushes no record. *)
Lemma jsonget_key_unreadable (rt : Runtime) (respond : oracle)
    (this : IExecuteFunctions) (client : jsval) (i : nat) (rest : list nat)
    (s : state) (e : error) :
  continueOnFail this = true ->
  getNodeParameter this "key" i None = Thrown e ->
  jsonget_item rt respond this client i s = (Thrown e, s)
  /\ jsonget_loop rt respond this client (i :: rest) s = (Thrown e, s).
Proof.
  intros Hisolate Hkey.
  assert (Hbody : jsonget_item rt respond this client i s = (Thrown e, s)).
  { unfold jsonget_item, param. rewrite run_bind, run_lift, Hkey.
    reflexivity. }
  split; [exact Hbody |].
  unfold jsonget_loop. rewrite run_for_each_cons.
  rewrite (jsonget_step_thrown _ _ _ _ _ _ _ _ Hbody), Hisolate, Hkey.
  reflexivity.
Qed.


(** *** The connection and the number of outputs *)

Lemma closed_released (s : state) : closed (released s) = S (closed s).
Proof.
  unfold closed, released. simpl. rewrite count_calls_snoc. simpl.
  apply Nat.add_1_r.
Qed.

Lemma opened_released (s : state) : opened (released s) = opened s.
Proof.
  unfold opened, released. simpl. rewrite count_calls_snoc. simpl.
  apply Nat.add_0_r.
Qed.

Section Loop.
Context (rt : Runtime) (respond : oracle) (this : IExecuteFunctions).
Context (client : jsval) (operation : string).
Context (Hlisted : operation ∈ per_item_operations).
Context (Hsingle : single_item operation).

(** A turn of the item loop for an operation that handles one item: it
    pushes one output, or it releases the connection and throws. *)
Lemma item_step_outcome (i : nat) (s s' : state) (r : result unit) :
  item_step rt respond this client operation i s = (r, s') ->
  opened s' = opened s
  /\ match r with
     | Ok _ => closed s' = closed s
               /\ exists o, returnItems s' = returnItems s ++ [o]
     | Thrown _ => closed s' = S (closed s)
                   /\ returnItems s' = returnItems s
                   /\ continueOnFail this = false
     end.
Proof using Hlisted Hsingle.
  destruct (handler rt respond this client operation i s) as [[[]|e] s1] eqn:E.
  - unfold item_step, try_catch. rewrite E. intros [= <- <-].
    apply (handler_emits rt respond this client operation i Hlisted Hsingle)
      in E as (E1 & E2 & E3).
    auto.
  - rewrite (item_step_thrown _ _ _ _ _ _ _ _ _ E).
    apply (handler_emits rt respond this client operation i Hlisted Hsingle)
      in E as (E1 & E2 & E3).
    destruct (continueOnFail this); intros [= <- <-].
    + unfold appended, opened, closed in *. simpl. rewrite E3. eauto.
    + rewrite closed_released, opened_released. unfold released. simpl. auto.
Qed.

(** The item loop for such an operation pushes one output for each item it
    is run on, or releases the connection once and throws. *)
Lemma item_loop_outcome (indices : list nat) (s s' : state) (r : result unit) :
  item_loop rt respond this client operation indices s = (r, s') ->
  opened s' = opened s
  /\ match r with
     | Ok _ => closed s' = closed s
               /\ List.length (returnItems s')
                  = (List.length (returnItems s) + List.length indices)%nat
     | Thrown _ => closed s' = S (closed s) /\ continueOnFail this = false
     end.
Proof using Hlisted Hsingle.
  unfold item_loop. revert s.
  induction indices as [|i rest IH]; intros s.
  - intros [= <- <-]. simpl. auto with arith.
  - rewrite run_for_each_cons.
    destruct (item_step rt respond this client operation i s)
      as [[[]|e] s1] eqn:E; apply item_step_outcome in E.
    + destruct E as (E1 & E2 & o & E3). intros H.
      apply IH in H as (H1 & H2).
      split; [congruence |].
      destruct r.
      * destruct H2 as (H2 & H3). split; [congruence |].
        rewrite H3, E3, List.length_app. simpl. lia.
      * destruct H2 as (H2 & H3). split; [congruence | assumption].
    + destruct E as (E1 & E2 & E3 & E4). intros [= <- <-]. auto.
Qed.

End Loop.

Lemma await_state (respond : oracle) (client : jsval) (command : string)
    (args : list jsval) (s : state) :
  (await respond client command args s).2
  = {| trace := trace s ++ [Call command args]; returnItems := returnItems s |}.
Proof.
  unfold await.
  destruct (respond client (trace s) (Call command args)); reflexivity.
Qed.

(** The info branch pushes one output, or releases the connection once
    and throws. *)
Lemma op_info_outcome (rt : Runtime) (respond : oracle)
    (this : IExecuteFunctions) (client : jsval) (s s' : state)
    (r : result unit) :
  op_info rt respond this client s = (r, s') ->
  opened s' = opened s
  /\ match r with
     | Ok _ => closed s' = closed s
               /\ exists o, returnItems s' = returnItems s ++ [o]
     | Thrown _ => closed s' = S (closed s) /\ continueOnFail this = false
     end.
Proof.
  unfold op_info, try_catch.
  assert (Hbody : emits (reply ← await respond client "info" [];
                         report ← lift (report_of reply);
                         push (OutReport report))) by emits_auto.
  destruct ((reply ← await respond client "info" [];
             report ← lift (report_of reply);
             push (OutReport report)) s) as [[[]|e] s1] eqn:E;
    apply Hbody in E as (E1 & E2 & E3).
  - intros [= <- <-]. auto.
  - destruct (continueOnFail this).
    + intros [= <- <-]. unfold opened, closed in *. simpl. rewrite E3. eauto.
    + change (await respond client "quit" [];;
              throw (NodeOperationError_of rt e None))
        with (await respond client "quit" [] ≫= fun _ =>
              throw (A := unit) (NodeOperationError_of rt e None)).
      rewrite run_bind.
      pose proof (await_state respond client "quit" [] s1) as Hs.
      destruct (await respond client "quit" [] s1) as [[?|?] s2];
        simpl in Hs; subst s2; intros [= <- <-];
        fold (released s1); rewrite closed_released, opened_released; auto.
Qed.

(** Between the ping and the final quit, an operation other than jsonset
    and jsonget leaves the connection as it is when it completes and
    releases it once when it throws. *)
Lemma dispatch_outcome (rt : Runtime) (respond : oracle)
    (this : IExecuteFunctions) (client operation : jsval) (s s' : state)
    (r : result unit) :
  (forall op, operation = VStr op -> single_item op) ->
  dispatch rt respond this client operation s = (r, s') ->
  opened s' = opened s
  /\ match r with
     | Ok _ => closed s' = closed s
     | Thrown _ => closed s' = S (closed s)
     end.
Proof.
  intros Hsingle. unfold dispatch.
  destruct (is_str operation "info").
  - intros H. apply op_info_outcome in H as (H1 & H2).
    split; [assumption |]. destruct r; tauto.
  - destruct operation; try (intros [= <- <-]; auto).
    destruct (bool_decide (s0 ∈ per_item_operations)) eqn:Hin.
    + apply bool_decide_eq_true in Hin. intros H.
      apply (item_loop_outcome rt respond this client s0 Hin
               (Hsingle s0 eq_refl)) in H as (H1 & H2).
      split; [assumption |]. destruct r; tauto.
    + intros [= <- <-]. auto.
Qed.

(** X17: for every operation other than jsonset and jsonget, a run of
    [execute] opens the connection at most once and releases it at most
    once, and a run that returns its batch has opened and released it
    once. *)
Lemma execute_connection (rt : Runtime) (respond : oracle)
    (this : IExecuteFunctions) (r : result (list (list output))) (s : state) :
  (forall op, getNodeParameter this "operation" 0%nat None = Ok (VStr op) ->
              single_item op) ->
  execute rt respond this start = (r, s) ->
  (opened s <= 1)%nat /\ (closed s <= 1)%nat
  /\ match r with
     | Ok _ => opened s = 1%nat /\ closed s = 1%nat
     | Thrown _ => True
     end.
Proof.
  intros Hsingle. unfold execute.
  rewrite run_bind, run_lift.
  destruct (getCredentials this) as [credentials|e];
    [| intros [= <- <-]; vm_compute; auto].
  set (client := setupRedisClient credentials).
  rewrite run_bind.
  pose proof (await_state respond client "connect" [] start) as H1.
  destruct (await respond client "connect" [] start) as [[?|?] s1];
    simpl in H1; subst s1; [| intros [= <- <-]; vm_compute; auto].
  rewrite run_bind.
  match goal with |- context [await respond client "ping" [] ?s1] =>
    pose proof (await_state respond client "ping" [] s1) as H2;
    destruct (await respond client "ping" [] s1) as [[?|?] s2]
  end; simpl in H2; subst s2; [| intros [= <- <-]; vm_compute; auto].
  rewrite run_bind, run_lift.
  destruct (getNodeParameter this "operation" 0%nat None) as [operation|e] eqn:Hop;
    [| intros [= <- <-]; vm_compute; auto].
  rewrite run_bind.
  match goal with |- context [dispatch rt respond this client operation ?s2] =>
    destruct (dispatch rt respond this client operation s2) as [[[]|e] s3] eqn:E
  end.
  - apply dispatch_outcome in E as (E1 & E2);
      [| intros op ->; apply Hsingle; reflexivity].
    rewrite run_bind.
    pose proof (await_state respond client "quit" [] s3) as H3.
    destruct (await respond client "quit" [] s3) as [[?|?] s4];
      simpl in H3; subst s4; intros [= <- <-];
      fold (released s3); rewrite closed_released, opened_released, E1, E2;
      vm_compute; auto.
  - apply dispatch_outcome in E as (E1 & E2);
      [| intros op ->; apply Hsingle; reflexivity].
    intros [= <- <-]. rewrite E1, E2. vm_compute. auto.
Qed.

(** X18: for every per-item operation other than jsonset and jsonget, a run
    of [execute] that returns, returns one batch with one output for each
    input item. *)
Lemma execute_one_output_per_item (rt : Runtime) (respond : oracle)
    (this : IExecuteFunctions) (operation : string)
    (batches : list (list output)) (s : state) :
  getNodeParameter this "operation" 0%nat None = Ok (VStr operation) ->
  operation ∈ per_item_operations ->
  single_item operation ->
  execute rt respond this start = (Ok batches, s) ->
  exists batch,
    batches = [batch]
    /\ List.length batch = List.length (getInputData this).
Proof.
  intros Hop Hlisted Hsingle. unfold execute.
  rewrite run_bind, run_lift.
  destruct (getCredentials this) as [credentials|e]; [| discriminate].
  set (client := setupRedisClient credentials).
  rewrite run_bind.
  pose proof (await_state respond client "connect" [] start) as H1.
  destruct (await respond client "connect" [] start) as [[?|?] s1];
    simpl in H1; subst s1; [| discriminate].
  rewrite run_bind.
  match goal with |- context [await respond client "ping" [] ?s1] =>
    pose proof (await_state respond client "ping" [] s1) as H2;
    destruct (await respond client "ping" [] s1) as [[?|?] s2]
  end; simpl in H2; subst s2; [| discriminate].
  rewrite run_bind, run_lift, Hop, run_bind.
  unfold dispatch.
  assert (Hinfo : is_str (VStr operation) "info" = false).
  { destruct (is_str (VStr operation) "info") eqn:Hi; [| reflexivity].
    apply is_str_eq in Hi. injection Hi as ->.
    exfalso. revert Hlisted. vm_compute. intros H.
    repeat (apply elem_of_cons in H as [H | H]; [discriminate |]).
    apply elem_of_nil in H. contradiction. }
  rewrite Hinfo, bool_decide_eq_true_2 by assumption.
  match goal with |- context [item_loop _ _ _ _ _ ?l ?s2] =>
    destruct (item_loop rt respond this client operation l s2)
      as [[[]|e] s3] eqn:E
  end; [| discriminate].
  apply (item_loop_outcome rt respond this client operation Hlisted Hsingle)
    in E as (_ & _ & E).
  rewrite run_bind.
  pose proof (await_state respond client "quit" [] s3) as H3.
  destruct (await respond client "quit" [] s3) as [[?|?] s4];
    simpl in H3; subst s4; [| discriminate].
  intros [= <- <-]. eexists. split; [reflexivity |].
  simpl in E. rewrite E, List.length_seq. reflexivity.
Qed.



(** C1 at a failing input: jsonget over one item, the store rejecting
    [sendCommand], isolation off.  The [catch] of the jsonget loop calls
    [quit] and throws, and the [catch] of the item loop around it calls
    [quit] again: the connection opened once is released twice. *)
Theorem execute_jsonget_releases_twice :
  execute example_runtime module_missing (example_host "jsonget" false 1 "value")
          start
  = (Thrown (NodeOperationError "ERR unknown command" (Some 0%nat)),
     {| trace := [Call "connect" []; Call "ping" [];
                  Call "sendCommand" [VArr [VStr "JSON.GET"; VStr "doc0"; VStr "$"]];
                  Call "quit" []; Call "quit" []];
        returnItems := [] |})
  /\ opened (execute example_runtime module_missing
               (example_host "jsonget" false 1 "value") start).2 = 1%nat
  /\ closed (execute example_runtime module_missing
               (example_host "jsonget" false 1 "value") start).2 = 2%nat.
Proof. repeat split; vm_compute; reflexivity. Qed.

(** C2 at a failing input: jsonget over two items, no failure, no abort.
    Each turn of the item loop runs the jsonget loop over both items, so
    the run returns four outputs for two items. *)
Theorem execute_jsonget_repeats_items :
  exists batch s,
    execute example_runtime no_document (example_host "jsonget" false 2 "value")
            start = (Ok [batch], s)
    /\ List.length (getInputData (example_host "jsonget" false 2 "value")) = 2%nat
    /\ pairedItem <$> (batch ≫= fun o => match o with Out it => [it] | _ => [] end)
       = [Some 0; Some 1; Some 0; Some 1]%nat
    /\ List.length batch = 4%nat.
Proof.
  eexists _, _. split; [vm_compute; reflexivity |].
  repeat split.
Qed.

(** ** Further properties of the report parser *)

Lemma split_not_nil (sep : ascii) (s : string) : Str.split sep s <> [].
Proof.
  destruct s as [|c r]; simpl; [discriminate |].
  destruct (Ascii.eqb c sep); [discriminate |].
  destruct (Str.split sep r); discriminate.
Qed.

Lemma split_without (sep : ascii) (s : string) :
  Str.includes sep s = false -> Str.split sep s = [s].
Proof.
  induction s as [|c r IH]; simpl; [reflexivity |].
  destruct (Ascii.eqb c sep); simpl; [discriminate |].
  intros H. rewrite (IH H). reflexivity.
Qed.

Lemma split_with (sep : ascii) (s : string) :
  Str.includes sep s = true ->
  exists a b rest, Str.split sep s = a :: b :: rest.
Proof.
  induction s as [|c r IH]; simpl; [discriminate |].
  destruct (Ascii.eqb c sep); simpl.
  - intros _. destruct (Str.split sep r) as [|w ws] eqn:E.
    + destruct (split_not_nil _ _ E).
    + eauto.
  - intros H. destruct (IH H) as (a & b & rest & ->). eauto.
Qed.

Lemma split_append (sep : ascii) (a b : string) :
  Str.split sep (a ++ String sep b) = Str.split sep a ++ Str.split sep b.
Proof.
  induction a as [|c r IH]; simpl.
  - rewrite Ascii.eqb_refl. reflexivity.
  - destruct (Ascii.eqb c sep); rewrite IH; [reflexivity |].
    destruct (Str.split sep r) as [|w ws] eqn:E; [| reflexivity].
    destruct (split_not_nil _ _ E).
Qed.

Lemma info_lines_app (l1 l2 : list string) (m : gmap string info_value) :
  info_lines (l1 ++ l2) m
  = match info_lines l1 m with
    | Ok m' => info_lines l2 m'
    | Thrown e => Thrown e
    end.
Proof.
  revert m. induction l1 as [|l l1 IH]; intros m; simpl; [reflexivity |].
  destruct (info_line l m); [apply IH | reflexivity].
Qed.

Lemma info_line_passed_over (line : string) (m : gmap string info_value) :
  passed_over line = true -> info_line line m = Ok m.
Proof.
  unfold passed_over, info_line. intros H.
  destruct line as [|c r]; [reflexivity |].
  simpl in H.
  destruct (Ascii.eqb_spec c "#") as [-> | _]; [reflexivity |].
  simpl in H. apply negb_true_iff in H.
  destruct (bool_decide _); [reflexivity |].
  change (Ascii.eqb c ":" || Str.includes ":" r)
    with (Str.includes ":" (String c r)) in H.
  rewrite (split_without _ _ H). reflexivity.
Qed.

Lemma split_concat (ls : list string) :
  ls <> [] ->
  Str.split "010" (String.concat newline ls)
  = List.flat_map (Str.split "010") ls.
Proof.
  induction ls as [|l ls IH]; [contradiction |]. intros _.
  destruct ls as [|l' ls].
  - simpl. rewrite app_nil_r. reflexivity.
  - change (String.concat newline (l :: l' :: ls))
      with (l ++ String "010" (String.concat newline (l' :: ls)))%string.
    rewrite split_append, IH by discriminate. reflexivity.
Qed.

Lemma info_lines_flat_map (before after : list string) (line : string)
    (m : gmap string info_value) :
  Str.includes "010" line = false ->
  passed_over line = true ->
  info_lines (List.flat_map (Str.split "010") (before ++ line :: after)) m
  = info_lines (List.flat_map (Str.split "010") (before ++ after)) m.
Proof.
  intros Hline Hskip.
  rewrite !flat_map_app, !info_lines_app.
  destruct (info_lines (flat_map (Str.split "010") before) m) as [m' | e];
    [| reflexivity].
  simpl flat_map. rewrite (split_without _ _ Hline). simpl.
  rewrite (info_line_passed_over _ _ Hskip). reflexivity.
Qed.

(** X1: a line of the report that is empty, starts with [#] or has no
    colon contributes nothing, wherever it stands: the report made of the
    parts [before], the line and the parts [after], joined by newlines,
    parses as the report made of [before] and [after] does. *)
Theorem convertInfoToObject_passes_over (before after : list string)
    (line : string) :
  Str.includes "010" line = false ->
  passed_over line = true ->
  convertInfoToObject (String.concat newline (before ++ line :: after))
  = convertInfoToObject (String.concat newline (before ++ after)).
Proof.
  intros Hline Hskip. unfold convertInfoToObject.
  rewrite split_concat by (destruct before; discriminate).
  destruct (before ++ after) as [|l ls] eqn:E.
  - apply app_eq_nil in E as [-> ->]. simpl.
    rewrite app_nil_r, (split_without _ _ Hline). simpl.
    rewrite (info_line_passed_over _ _ Hskip). reflexivity.
  - rewrite <- E, split_concat by (rewrite E; discriminate).
    apply info_lines_flat_map; assumption.
Qed.

Lemma convertInfoToObject_passes_over_witness :
  convertInfoToObject
    (String.concat newline
       (["# Server"; "redis_version:6.2.14"] ++ "no colon here"
        :: ["connected_clients:1"]))
  = convertInfoToObject
      (String.concat newline
         (["# Server"; "redis_version:6.2.14"] ++ ["connected_clients:1"])).
Proof.
  apply (convertInfoToObject_passes_over
           ["# Server"; "redis_version:6.2.14"] ["connected_clients:1"]
           "no colon here"); reflexivity.
Defined.

(** X2: the report is read line by line and a later line wins.  Take a
    report that parses, and add at its end a line [key:value] that does not
    start with [#], where the key holds no colon and is not [__proto__],
    neither the key nor the value holds a newline, and the value, cut at its
    first colon and trimmed, holds no [=].  Then the report parses, and
    [key] is set to that cut and trimmed value, parsed, whatever an earlier
    line gave it; what follows the first colon of the value is dropped. *)
Theorem convertInfoToObject_last_wins (text key value : string)
    (m : gmap string info_value) :
  convertInfoToObject text = Ok m ->
  Str.includes "010" key = false ->
  Str.includes ":" key = false ->
  passed_over (key ++ ":" ++ value) = false ->
  key <> "__proto__" ->
  Str.includes "010" value = false ->
  Str.includes "=" (Str.trim (before_colon value)) = false ->
  convertInfoToObject (text ++ newline ++ key ++ ":" ++ value)
  = Ok (<[key := IScalar (getParsedValue (Str.trim (before_colon value)))]> m).
Proof.
  intros Htext Hk1 Hk2 Hskip Hproto Hv1 Hv3.
  unfold convertInfoToObject in *. unfold newline.
  change (text ++ String "010" EmptyString ++ key ++ ":" ++ value)%string
    with (text ++ String "010" (key ++ String ":" value))%string.
  rewrite split_append, info_lines_app, Htext.
  assert (Hline : Str.includes "010" (key ++ String ":" value) = false).
  { clear -Hk1 Hv1. induction key as [|c k IH]; simpl in *.
    - exact Hv1.
    - apply orb_false_iff in Hk1 as [-> Hk1]. simpl. apply IH, Hk1. }
  rewrite (split_without _ _ Hline). simpl info_lines.
  unfold info_line.
  change (key ++ ":" ++ value)%string with (key ++ String ":" value)%string
    in Hskip.
  unfold passed_over in Hskip.
  apply orb_false_iff in Hskip as [Hskip _].
  apply orb_false_iff in Hskip as [Hempty Hhash].
  destruct (key ++ String ":" value)%string as [|c r] eqn:E;
    [discriminate |].
  assert (Hfirst : bool_decide (Str.charAt0 (String c r) ∈ ["#"; EmptyString])
                   = false).
  { apply bool_decide_eq_false_2. simpl. simpl in Hhash.
    intros Hin.
    apply elem_of_cons in Hin as [Hin | Hin].
    - injection Hin as ->. discriminate.
    - apply elem_of_cons in Hin as [Hin | Hin]; [discriminate |].
      apply elem_of_nil in Hin. exact Hin. }
  rewrite Hfirst, <- E, split_append.
  rewrite (split_without _ _ Hk2). unfold before_colon in *.
  destruct (Str.split ":" value) as [|piece more] eqn:Ev;
    [destruct (split_not_nil _ _ Ev) |].
  simpl. rewrite Hv3. unfold assign.
  destruct (String.eqb_spec key "__proto__"); [contradiction | reflexivity].
Qed.

Lemma convertInfoToObject_last_wins_witness :
  convertInfoToObject (sample_report ++ newline ++ "role" ++ ":" ++ "slave")
  = Ok (<["role" := IScalar (getParsedValue (Str.trim (before_colon "slave")))]>
        (<["redis_version" := IScalar (SNumber (decimal 62 1))]>
         (<["connected_clients" := IScalar (SNumber (decimal 1 0))]>
          (<["role" := IScalar (SString "master")]> ∅))))
  /\ convertInfoToObject
       (sample_report ++ newline ++ "run_id" ++ ":" ++ "12:30")
     = Ok (<["run_id" := IScalar (getParsedValue
                                    (Str.trim (before_colon "12:30")))]>
           (<["redis_version" := IScalar (SNumber (decimal 62 1))]>
            (<["connected_clients" := IScalar (SNumber (decimal 1 0))]>
             (<["role" := IScalar (SString "master")]> ∅)))).
Proof.
  split.
  - apply (convertInfoToObject_last_wins sample_report "role" "slave");
      first [vm_compute; reflexivity | discriminate].
  - apply (convertInfoToObject_last_wins sample_report "run_id" "12:30");
      first [vm_compute; reflexivity | discriminate].
Defined.

(** The value of a line is cut at its first colon: [run_id:12:30] sets
    [run_id] to the number 12. *)
Lemma before_colon_cuts :
  getParsedValue (Str.trim (before_colon "12:30")) = SNumber (num_of_Z 12)
  /\ before_colon "slave" = "slave".
Proof. split; reflexivity. Qed.

(** X3: a value holding [=] is read as a nested record, and the nested
    record is built exactly when every piece between the commas holds
    [=]; a piece without [=] makes the parser throw. *)
Theorem nested_fields_needs_equals (pairs : list string)
    (obj : gmap string scalar) :
  (exists fields, nested_fields pairs obj = Ok fields)
  <-> Forall (fun pair => Str.includes "=" pair = true) pairs.
Proof.
  revert obj. induction pairs as [|pair rest IH]; intros obj; simpl.
  - split; [constructor | eauto].
  - destruct (Str.includes "=" pair) eqn:E.
    + destruct (split_with _ _ E) as (a & b & tl & ->).
      rewrite IH. split.
      * intros H. constructor; assumption.
      * intros H. apply Forall_cons in H as [_ H]. exact H.
    + rewrite (split_without _ _ E). split.
      * intros [fields H]. discriminate.
      * intros H. apply Forall_cons in H as [H _]. congruence.
Qed.

Lemma digit_cases (c : ascii) :
  Str.is_digit c = true ->
  Str.is_space c = false /\ Ascii.eqb c "-" = false /\ Ascii.eqb c "+" = false
  /\ Ascii.eqb "I" c = false /\ Ascii.eqb c "." = false.
Proof.
  destruct c as [[] [] [] [] [] [] [] []]; vm_compute;
    first [discriminate | intros _; repeat split].
Qed.

Lemma span_all_digits (s : string) :
  Str.all Str.is_digit s = true -> Str.span_digits s = (s, EmptyString).
Proof.
  induction s as [|c r IH]; simpl; [reflexivity |].
  intros [-> H]%andb_true_iff. rewrite (IH H). reflexivity.
Qed.

Lemma append_empty (s : string) : (s ++ EmptyString)%string = s.
Proof.
  induction s as [|c r IH]; [reflexivity |].
  change (String c (String.append r EmptyString) = String c r).
  f_equal. exact IH.
Qed.

Lemma all_digits_match (s : string) :
  Str.all Str.is_digit s = true ->
  Str.all (fun c => Str.is_digit c || Ascii.eqb c ".") s = true.
Proof.
  induction s as [|c r IH]; simpl; [reflexivity |].
  intros [-> H]%andb_true_iff. simpl. apply IH, H.
Qed.

Lemma Qred_integer (z : Z) : Qred (z # 1) = (z # 1)%Q.
Proof.
  unfold Qred.
  pose proof (Z.ggcd_gcd z 1) as Hg.
  pose proof (Z.ggcd_correct_divisors z 1) as Hd.
  destruct (Z.ggcd z 1) as [g [a b]]. simpl in Hg, Hd.
  rewrite Z.gcd_1_r in Hg. subst g. destruct Hd as [Ha Hb].
  rewrite Z.mul_1_l in Ha, Hb. subst a b. reflexivity.
Qed.

Lemma to_double_proper (q q' : Q) : (q == q')%Q -> to_double q = to_double q'.
Proof.
  intros H. unfold to_double. rewrite (Qred_complete q q' H). reflexivity.
Qed.

Lemma round_half_even_unit (n : Z) : round_half_even n 1 = n.
Proof.
  unfold round_half_even. rewrite Z.mod_1_r, Z.div_1_r. reflexivity.
Qed.

Lemma nearest_double_integer (z : Z) :
  0 < z < 2 ^ 53 -> nearest_double z 1 = Some (z # 1)%Q.
Proof.
  intros [Hpos Hlt].
  pose proof (Z.log2_spec z Hpos) as [Hlow _].
  pose proof (Z.log2_nonneg z) as Hnn.
  assert (Hlog : Z.log2 z < 53) by (apply Z.log2_lt_pow2; lia).
  unfold nearest_double, scaled.
  change (Z.log2 1) with 0. rewrite Z.sub_0_r.
  destruct (Z.leb_spec 0 (Z.log2 z)) as [_ | ?]; [| lia].
  destruct (Z.ltb_spec z (1 * 2 ^ Z.log2 z)) as [? | _]; [lia |].
  rewrite Z.max_l by lia.
  destruct (Z.leb_spec 0 (Z.log2 z - 52)) as [Hp | Hp].
  - assert (Hz : Z.log2 z - 52 = 0) by lia. rewrite Hz.
    change (1 * 2 ^ 0) with 1. rewrite round_half_even_unit.
    change (2 ^ 0) with 1. rewrite Z.mul_1_r.
    destruct (Z.ltb_spec z (2 ^ 1024)) as [_ | Hbig]; [reflexivity |].
    assert (2 ^ 53 < 2 ^ 1024) by (apply Z.pow_lt_mono_r; lia). lia.
  - rewrite round_half_even_unit. f_equal.
    rewrite <- (Qred_integer z). apply Qred_complete.
    unfold Qeq. simpl Qnum. simpl Qden.
    rewrite Z2Pos.id by (apply Z.pow_pos_nonneg; lia). lia.
Qed.

(** The integers up to [2^53] in absolute value are doubles. *)
Lemma num_of_Z_exact (z : Z) :
  - 2 ^ 53 <= z <= 2 ^ 53 -> num_of_Z z = Finite (inject_Z z).
Proof.
  intros Hz. unfold num_of_Z, to_double, inject_Z.
  rewrite Qred_integer. simpl Qnum. simpl Qden.
  destruct (Z.eq_dec (Z.abs z) (2 ^ 53)) as [Htop | Htop].
  - destruct (Z.abs_eq_or_opp z) as [E | E]; rewrite E in Htop.
    + subst z. reflexivity.
    + assert (z = - 2 ^ 53) as -> by lia. reflexivity.
  - destruct z as [|a|a]; [reflexivity | |].
    + rewrite nearest_double_integer by lia. reflexivity.
    + rewrite nearest_double_integer by lia. reflexivity.
Qed.

Lemma digits_value_nonneg (s : string) (acc : Z) :
  0 <= acc -> Str.all Str.is_digit s = true -> 0 <= Str.digits_value acc s.
Proof.
  revert acc. induction s as [|c r IH]; intros acc Hacc Hall; simpl;
    [exact Hacc |].
  simpl in Hall. apply andb_true_iff in Hall as [Hc Hr].
  apply IH; [| exact Hr].
  unfold Str.is_digit in Hc. apply andb_true_iff in Hc as [Hc _].
  apply N.leb_le in Hc. lia.
Qed.

(** X4: a value made of digits only is parsed to the Number value of the
    integer it writes: the double nearest to that integer, which is the
    integer itself when it is [2^53] at most. *)
Theorem getParsedValue_digits (value : string) :
  value <> EmptyString ->
  Str.all Str.is_digit value = true ->
  getParsedValue value = SNumber (num_of_Z (Str.digits_value 0 value))
  /\ (Str.digits_value 0 value <= 2 ^ 53 ->
      getParsedValue value
      = SNumber (Finite (inject_Z (Str.digits_value 0 value)))).
Proof.
  intros Hne Hall.
  assert (Hparsed : getParsedValue value
                    = SNumber (num_of_Z (Str.digits_value 0 value))).
  { unfold getParsedValue, matches_digits_dots.
    rewrite (all_digits_match _ Hall).
    destruct value as [|c r]; [contradiction |].
    simpl negb. simpl andb. f_equal.
    pose proof Hall as Hc. simpl in Hc. apply andb_true_iff in Hc as [Hc _].
    destruct (digit_cases c Hc) as (Hs & Hm & Hp & Hi & _).
    unfold parseFloat.
    assert (Htrim : Str.trim_start (String c r) = String c r)
      by (simpl; rewrite Hs; reflexivity).
    rewrite Htrim.
    assert (Hsign : take_sign (String c r) = (false, String c r)).
    { destruct c as [[] [] [] [] [] [] [] []]; try reflexivity; discriminate. }
    rewrite Hsign.
    assert (Hinf : Str.starts_with "Infinity" (String c r) = false).
    { destruct c as [[] [] [] [] [] [] [] []]; try reflexivity; discriminate. }
    rewrite Hinf, (span_all_digits _ Hall). simpl Str.is_empty. simpl andb.
    cbv iota. rewrite append_empty. unfold num_of_Z.
    apply to_double_proper.
    change (Qpower (10 # 1) (0 - Z.of_nat (Str.length EmptyString))) with 1%Q.
    apply Qmult_1_r. }
  split; [exact Hparsed |].
  intros Hsmall. rewrite Hparsed, num_of_Z_exact; [reflexivity |].
  pose proof (digits_value_nonneg value 0 (Z.le_refl 0) Hall). lia.
Qed.

Lemma getParsedValue_digits_witness :
  getParsedValue "429905" = SNumber (num_of_Z (Str.digits_value 0 "429905"))
  /\ (Str.digits_value 0 "429905" <= 2 ^ 53 ->
      getParsedValue "429905"
      = SNumber (Finite (inject_Z (Str.digits_value 0 "429905")))).
Proof.
  apply (getParsedValue_digits "429905"); [discriminate | reflexivity].
Defined.

(** Above [2^53] the integer a value writes need not be a double:
    [9007199254740993] is parsed to [9007199254740992].  What is too large
    for a double is the infinity, and a decimal fraction is the double
    nearest to it. *)
Lemma getParsedValue_rounds :
  getParsedValue "9007199254740993"
  = SNumber (Finite (inject_Z 9007199254740992))
  /\ parseFloat "1e400" = Infinity false
  /\ parseFloat "0.1" = Finite (3602879701896397 # 36028797018963968).
Proof. repeat split; vm_compute; reflexivity. Qed.

(** X5: a value made of decimal points only passes for a number and is
    parsed to NaN. *)
Theorem getParsedValue_points (value : string) :
  value <> EmptyString ->
  Str.all (fun c => Ascii.eqb c ".") value = true ->
  getParsedValue value = SNumber NaN.
Proof.
  intros Hne Hall. unfold getParsedValue, matches_digits_dots.
  assert (Hmatch : Str.all (fun c => Str.is_digit c || Ascii.eqb c ".") value
                   = true).
  { clear Hne. induction value as [|c r IH]; simpl in *; [reflexivity |].
    apply andb_true_iff in Hall as [-> H]. rewrite orb_true_r. apply IH, H. }
  rewrite Hmatch.
  destruct value as [|c r]; [contradiction |].
  simpl in Hall. apply andb_true_iff in Hall as [Hc Hr].
  apply Ascii.eqb_eq in Hc as ->.
  simpl negb. simpl andb. f_equal.
  destruct r as [|d r]; [reflexivity |].
  simpl in Hr. apply andb_true_iff in Hr as [Hd _].
  apply Ascii.eqb_eq in Hd as ->. reflexivity.
Qed.

Lemma getParsedValue_points_witness : getParsedValue "..." = SNumber NaN.
Proof.
  apply (getParsedValue_points "..."); [discriminate | reflexivity].
Defined.

(** ** Further properties of utils.ts *)

(** X6: the credential test never throws and never calls [quit].  It
    answers OK exactly when [connect] and then [ping] resolve; when
    [connect] is rejected it answers Error with the message of the
    rejection and [ping] is not tried; when [ping] is rejected it answers
    Error with the message of that rejection. *)
Theorem redisConnectionTest_outcome (respond : oracle)
    (credentials : RedisCredential) (s : state) :
  exists r s',
    redisConnectionTest respond credentials s = (Ok r, s')
    /\ closed s' = closed s
    /\ returnItems s' = returnItems s
    /\ match respond (setupRedisClient credentials) (trace s)
               (Call "connect" []) with
       | Reject msg =>
           r = {| status := "Error"; status_message := msg |}
           /\ trace s' = trace s ++ [Call "connect" []]
       | Resolve _ =>
           trace s' = trace s ++ [Call "connect" []; Call "ping" []]
           /\ match respond (setupRedisClient credentials)
                      (trace s ++ [Call "connect" []]) (Call "ping" []) with
              | Reject msg =>
                  r = {| status := "Error"; status_message := msg |}
              | Resolve _ =>
                  r = {| status := "OK";
                         status_message := "Connection successful!" |}
              end
       end.
Proof.
  unfold redisConnectionTest, try_catch. rewrite run_bind.
  unfold await at 1.
  destruct (respond (setupRedisClient credentials) (trace s)
              (Call "connect" [])) as [v|msg].
  - rewrite run_bind. unfold await at 1. simpl trace.
    destruct (respond (setupRedisClient credentials)
                (trace s ++ [Call "connect" []]) (Call "ping" [])) as [v'|msg];
      (eexists _, _; split; [reflexivity |]);
      unfold closed; simpl; rewrite !count_calls_snoc; simpl;
      rewrite <- app_assoc; repeat split; lia.
  - eexists _, _; split; [reflexivity |].
    unfold closed; simpl; rewrite !count_calls_snoc; simpl.
    repeat split; lia.
Qed.

(** X7: a read with an explicit type (neither absent nor automatic) does
    not ask the store for the type of the key and makes at most one
    call. *)
Theorem getValue_explicit_type (respond : oracle) (client keyName type : jsval)
    (s : state) :
  is_undefined type || is_str type "automatic" = false ->
  count_calls "type"
    (trace (getValue respond client keyName type s).2)
  = count_calls "type" (trace s)
  /\ (List.length (trace (getValue respond client keyName type s).2)
      <= S (List.length (trace s)))%nat.
Proof.
  intros Htype. unfold getValue. rewrite Htype, run_bind, run_ret.
  destruct (is_str type "string");
    [| destruct (is_str type "hash");
       [| destruct (is_str type "list");
          [| destruct (is_str type "sets")]]];
    rewrite ?await_state; simpl;
    rewrite ?count_calls_snoc, ?List.length_app; simpl; split; lia.
Qed.

Lemma getValue_explicit_type_witness :
  count_calls "type"
    (trace (getValue accepting VNull (VStr "session") (VStr "hash") start).2)
  = count_calls "type" (trace start)
  /\ (List.length
        (trace (getValue accepting VNull (VStr "session") (VStr "hash") start).2)
      <= S (List.length (trace start)))%nat.
Proof.
  apply (getValue_explicit_type accepting VNull (VStr "session") (VStr "hash")
           start).
  reflexivity.
Defined.

(** X8: an automatic read asks for the type of the key first, and when
    the answer is none of [string], [hash], [list] and [sets] it reads
    nothing more and returns [undefined].  The store names the type of a
    set [set], so an automatic read of a set returns [undefined]. *)
Theorem getValue_automatic_unsupported (respond : oracle)
    (client keyName type answer : jsval) (s : state) :
  is_undefined type || is_str type "automatic" = true ->
  respond client (trace s) (Call "type" [keyName]) = Resolve answer ->
  is_str answer "string" = false ->
  is_str answer "hash" = false ->
  is_str answer "list" = false ->
  is_str answer "sets" = false ->
  getValue respond client keyName type s
  = (Ok VUndefined,
     {| trace := trace s ++ [Call "type" [keyName]];
        returnItems := returnItems s |}).
Proof.
  intros Htype Hanswer H1 H2 H3 H4.
  unfold getValue. rewrite Htype, run_bind.
  unfold await at 1. rewrite Hanswer, H1, H2, H3, H4. reflexivity.
Qed.

Lemma getValue_automatic_unsupported_witness :
  getValue holding_set VNull (VStr "tags") (VStr "automatic") start
  = (Ok VUndefined,
     {| trace := [Call "type" [VStr "tags"]]; returnItems := [] |}).
Proof.
  apply (getValue_automatic_unsupported holding_set VNull (VStr "tags")
           (VStr "automatic") (VStr "set") start); reflexivity.
Defined.

(** X9: a write whose type is left to [setValue] and whose value is not
    a string, an array or an object throws the error that asks for the
    type, before any call to the store. *)
Theorem setValue_unresolved_type (rt : Runtime) (respond : oracle)
    (client keyName value expire ttl type valueIsJSON setMode : jsval)
    (s : state) :
  is_undefined type || is_str type "automatic" = true ->
  match value with
  | VStr _ | VArr _ | VObj _ | VNull => False
  | _ => True
  end ->
  setValue rt respond client keyName value expire ttl type valueIsJSON setMode s
  = (Thrown (NodeOperationError
               "Could not identify the type to set. Please set it manually!"
               None), s).
Proof.
  intros Htype Hvalue. unfold setValue, resolve_type.
  rewrite run_bind, run_lift, Htype.
  destruct value; try contradiction; reflexivity.
Qed.

Lemma setValue_unresolved_type_witness :
  setValue example_runtime accepting VNull (VStr "counter") (VInt 5)
           (VBool false) (VInt (-1)) (VStr "automatic") (VBool true)
           (VStr "always") start
  = (Thrown (NodeOperationError
               "Could not identify the type to set. Please set it manually!"
               None), start).
Proof.
  apply (setValue_unresolved_type example_runtime accepting VNull
           (VStr "counter") (VInt 5) (VBool false) (VInt (-1))
           (VStr "automatic") (VBool true) (VStr "always") start).
  - reflexivity.
  - exact I.
Defined.

(** X10: a string write is one call to the store, [set], whatever the set
    mode, the expiration and the reply: the expiration travels in the
    options of that call, which are left out when there is none. *)
Theorem setValue_string_single_call (rt : Runtime) (respond : oracle)
    (client keyName value expire ttl type valueIsJSON setMode : jsval)
    (text : string) (s : state) :
  resolve_type value type = Ok (VStr "string") ->
  toString rt value = Ok text ->
  trace (setValue rt respond client keyName value expire ttl type valueIsJSON
                  setMode s).2
  = trace s
    ++ [Call "set"
          ([keyName; VStr text]
           ++ match setOptions rt expire ttl setMode with
              | [] => []
              | options => [VObj options]
              end)].
Proof.
  intros Htype Htext. unfold setValue.
  rewrite run_bind, run_lift, Htype.
  change (is_str (VStr "string") "string") with true. cbv iota.
  rewrite run_bind. unfold set_string.
  destruct (setOptions rt expire ttl setMode) as [|o options] eqn:E.
  - cbv zeta. change (0 <? List.length (@nil (string * jsval)))%nat with false.
    cbv iota.
    rewrite run_bind, run_lift, Htext, run_bind.
    pose proof (await_state respond client "set" [keyName; VStr text] s) as H.
    destruct (await respond client "set" [keyName; VStr text] s) as [[v|e] s1];
      simpl in H; subst s1; [| reflexivity].
    rewrite run_ret. unfold set_finish.
    change (negb (is_str (VStr "string") "string")) with false.
    rewrite andb_false_r, run_bind, run_ret, run_lift. reflexivity.
  - cbv zeta. change (0 <? List.length (o :: options))%nat with true.
    cbv iota.
    rewrite run_bind, run_lift, Htext, run_bind.
    pose proof (await_state respond client "set"
                  [keyName; VStr text; VObj (o :: options)] s) as H.
    destruct (await respond client "set"
                [keyName; VStr text; VObj (o :: options)] s) as [[v|e] s1];
      simpl in H; subst s1; [| reflexivity].
    destruct (is_null v && is_conditional setMode).
    + rewrite run_bind, run_lift.
      destruct (condition_not_met rt keyName setMode); reflexivity.
    + rewrite run_ret. unfold set_finish.
      change (negb (is_str (VStr "string") "string")) with false.
      rewrite andb_false_r, run_bind, run_ret, run_lift. reflexivity.
Qed.

Lemma setValue_string_single_call_witness :
  trace (setValue example_runtime accepting VNull (VStr "greeting")
                  (VStr "hello") (VBool true) (VInt 300) (VStr "automatic")
                  (VBool true) (VStr "always") start).2
  = [Call "set" [VStr "greeting"; VStr "hello"; VObj [("EX", VInt 300)]]].
Proof.
  apply (setValue_string_single_call example_runtime accepting VNull
           (VStr "greeting") (VStr "hello") (VBool true) (VInt 300)
           (VStr "automatic") (VBool true) (VStr "always") "hello" start);
    reflexivity.
Defined.

(** *** Commands a computation never issues *)

Lemma avoids_ret (name : string) {A : Type} (a : A) : avoids name (ret a).
Proof. intros s r s' [= <- <-]. reflexivity. Qed.

Lemma avoids_mret (name : string) {A : Type} (a : A) :
  avoids name (mret (M := M) a).
Proof. apply avoids_ret. Qed.

Lemma avoids_throw (name : string) {A : Type} (e : error) :
  avoids name (throw (A := A) e).
Proof. intros s r s' [= <- <-]. reflexivity. Qed.

Lemma avoids_lift (name : string) {A : Type} (r : result A) :
  avoids name (lift r).
Proof. intros s r' s' [= <- <-]. reflexivity. Qed.

Lemma avoids_bind (name : string) {A B : Type} (m : M A) (k : A -> M B) :
  avoids name m -> (forall a, avoids name (k a)) -> avoids name (m ≫= k).
Proof.
  intros Hm Hk s r s'. rewrite run_bind.
  destruct (m s) as [[a|e] s1] eqn:E; apply Hm in E.
  - intros H. apply Hk in H. congruence.
  - intros [= <- <-]. exact E.
Qed.

Lemma avoids_await (name : string) (respond : oracle) (client : jsval)
    (command : string) (args : list jsval) :
  String.eqb command name = false ->
  avoids name (await respond client command args).
Proof.
  intros Hc s r s' H.
  pose proof (await_state respond client command args s) as Hs.
  rewrite H in Hs. simpl in Hs. subst s'. simpl.
  rewrite count_calls_snoc. simpl. rewrite Hc. apply Nat.add_0_r.
Qed.

Lemma avoids_for_each (name : string) {A : Type} (l : list A)
    (body : A -> M unit) :
  (forall x, avoids name (body x)) -> avoids name (for_each l body).
Proof.
  intros Hbody. induction l as [|x l IH]; simpl.
  - apply avoids_ret.
  - apply avoids_bind; [apply Hbody | intros _; exact IH].
Qed.

Ltac avoids_step :=
  first
    [ apply avoids_ret | apply avoids_mret | apply avoids_throw
    | apply avoids_lift
    | apply avoids_await; reflexivity
    | apply avoids_for_each; intros ?
    | apply avoids_bind; [| intros ?]
    | match goal with
      | |- avoids _ (if ?b then _ else _) => destruct b
      | |- avoids _ (match ?x with _ => _ end) => destruct x
      end ].

Lemma avoids_lift_bind (name : string) {A B : Type} (r : result A)
    (k : A -> M B) :
  (forall a, r = Ok a -> avoids name (k a)) -> avoids name (lift r ≫= k).
Proof.
  intros Hk s r' s'. rewrite run_bind, run_lift.
  destruct r as [a|e]; [apply (Hk a eq_refl) | intros [= <- <-]; reflexivity].
Qed.

(** X11: [setValue] calls [expire] only for a write of a type other than
    string with an expiration asked for and a positive [ttl]: without
    these, no call of the write is [expire]. *)
Theorem setValue_expire_only_when_asked (rt : Runtime) (respond : oracle)
    (client keyName value expire ttl type valueIsJSON setMode : jsval)
    (s : state) :
  truthy expire && gt0 rt ttl = false
  \/ resolve_type value type = Ok (VStr "string") ->
  count_calls "expire"
    (trace (setValue rt respond client keyName value expire ttl type
                     valueIsJSON setMode s).2)
  = count_calls "expire" (trace s).
Proof.
  intros Hcase.
  assert (H : avoids "expire"
                (setValue rt respond client keyName value expire ttl type
                          valueIsJSON setMode)).
  { unfold setValue.
    apply avoids_lift_bind. intros resolved Hresolved.
    apply avoids_bind.
    - unfold set_string, set_hash, set_list. repeat avoids_step.
    - intros [r|]; [apply avoids_ret |].
      unfold set_finish.
      apply avoids_bind; [| intros _; apply avoids_lift].
      destruct Hcase as [-> | Hstring]; [apply avoids_mret |].
      rewrite Hstring in Hresolved. injection Hresolved as <-.
      change (negb (is_str (VStr "string") "string")) with false.
      rewrite andb_false_r. apply avoids_mret. }
  destruct (setValue rt respond client keyName value expire ttl type
                     valueIsJSON setMode s) as [r s'] eqn:E.
  apply H in E. exact E.
Qed.

Lemma setValue_expire_only_when_asked_witness :
  count_calls "expire"
    (trace (setValue example_runtime accepting VNull (VStr "tags")
                     (VArr [VStr "a"; VStr "b"]) (VBool true) (VInt 0)
                     (VStr "list") (VBool true) (VStr "always") start).2)
  = count_calls "expire" (trace start).
Proof.
  apply (setValue_expire_only_when_asked example_runtime accepting VNull
           (VStr "tags") (VArr [VStr "a"; VStr "b"]) (VBool true) (VInt 0)
           (VStr "list") (VBool true) (VStr "always") start).
  left. reflexivity.
Defined.

Lemma lset_elements (rt : Runtime) (respond : oracle) (client keyName : jsval) :
  (forall history c, exists v, respond client history c = Resolve v) ->
  forall (rest before : list string) (s : state),
    for_each (seq (List.length before) (List.length rest))
      (fun index =>
         element ← lift (get_index (VArr (VStr <$> before ++ rest)) index);
         text ← lift (toString rt element);
         await respond client "lSet"
               [keyName; VInt (Z.of_nat index); VStr text];;
         ret tt) s
    = (Ok tt,
       {| trace := trace s
                   ++ imap (fun i x =>
                              Call "lSet"
                                [keyName;
                                 VInt (Z.of_nat (List.length before + i));
                                 VStr x]) rest;
          returnItems := returnItems s |}).
Proof.
  intros Haccept.
  induction rest as [|x rest IH]; intros before s.
  - simpl. rewrite app_nil_r. destruct s; reflexivity.
  - simpl seq. rewrite run_for_each_cons.
    rewrite run_bind, run_lift.
    assert (Hx : get_index (VArr (VStr <$> before ++ x :: rest))
                   (List.length before) = Ok (VStr x)).
    { simpl. rewrite fmap_app, fmap_cons.
      rewrite (list_lookup_middle _ _ _ (List.length before));
        [reflexivity | rewrite length_fmap; reflexivity]. }
    rewrite Hx. cbv beta iota. rewrite run_bind, run_lift.
    change (toString rt (VStr x)) with (Ok x). cbv beta iota.
    rewrite run_bind. unfold await at 1.
    destruct (Haccept (trace s)
                (Call "lSet" [keyName; VInt (Z.of_nat (List.length before));
                              VStr x])) as [v ->].
    unfold ret at 1.
    specialize (IH (before ++ [x])).
    rewrite List.length_app in IH. simpl List.length in IH.
    rewrite Nat.add_1_r in IH.
    rewrite <- (app_assoc before [x] rest) in IH. simpl app in IH.
    rewrite IH. simpl trace. simpl returnItems.
    rewrite <- app_assoc. simpl. rewrite Nat.add_0_r.
    do 3 f_equal. f_equal. apply imap_ext. intros i y _. simpl.
    rewrite Nat.add_succ_r. reflexivity.
Qed.

(** X12: a list write sets the elements position by position: for an array
    of strings, under a store that resolves every call, the calls are one
    [lSet(key, i, x)] for each element [x] at position [i], in order,
    followed by [expire] when a positive expiration was asked for.  No call
    creates or extends the list. *)
Theorem setValue_list_positions (rt : Runtime) (respond : oracle)
    (client keyName expire ttl type valueIsJSON setMode : jsval)
    (elements : list string) (s : state) :
  resolve_type (VArr (VStr <$> elements)) type = Ok (VStr "list") ->
  (forall history c, exists v, respond client history c = Resolve v) ->
  trace (setValue rt respond client keyName (VArr (VStr <$> elements)) expire
                  ttl type valueIsJSON setMode s).2
  = trace s ++ lset_per_element keyName elements
    ++ (if truthy expire && gt0 rt ttl
        then [Call "expire" [keyName; ttl]] else []).
Proof.
  intros Htype Haccept.
  rewrite (setValue_non_string rt respond client keyName _ expire ttl type
             valueIsJSON setMode (VStr "list") s Htype eq_refl).
  unfold write_other.
  change (is_str (VStr "list") "hash") with false.
  change (is_str (VStr "list") "list") with true. cbv iota.
  unfold set_list. rewrite run_bind, run_lift.
  change (loop_count rt (VArr (VStr <$> elements)))
    with (Ok (List.length (VStr <$> elements))).
  cbv iota beta. rewrite length_fmap.
  pose proof (lset_elements rt respond client keyName Haccept elements [] s)
    as Hloop.
  simpl List.length in Hloop. simpl app in Hloop.
  rewrite Hloop.
  unfold set_finish. rewrite run_bind.
  change (negb (is_str (VStr "list") "string")) with true.
  rewrite andb_true_r. unfold lset_per_element.
  destruct (truthy expire && gt0 rt ttl).
  - rewrite run_bind. unfold await at 1. simpl trace.
    match goal with
    | |- context [respond client ?h ?c] => destruct (Haccept h c) as [v ->]
    end.
    rewrite run_ret, run_lift. simpl. rewrite <- app_assoc. reflexivity.
  - rewrite run_ret, run_lift. simpl. rewrite app_nil_r. reflexivity.
Qed.

Lemma setValue_list_positions_witness :
  trace (setValue example_runtime accepting VNull (VStr "queue")
                  (VArr (VStr <$> ["a"; "b"])) (VBool false) (VInt (-1))
                  (VStr "automatic") (VBool true) (VStr "always") start).2
  = [Call "lSet" [VStr "queue"; VInt 0; VStr "a"];
     Call "lSet" [VStr "queue"; VInt 1; VStr "b"]].
Proof.
  apply (setValue_list_positions example_runtime accepting VNull
           (VStr "queue") (VBool false) (VInt (-1)) (VStr "automatic")
           (VBool true) (VStr "always") ["a"; "b"] start).
  - reflexivity.
  - intros history c. exists (VStr "OK"). reflexivity.
Defined.

(** ** Further properties of the dispatcher *)

Lemma lookup_replace_prop (key : string) (v w : jsval) (o : props) :
  lookup_prop key o = Some w -> lookup_prop key (replace_prop key v o) = Some v.
Proof.
  induction o as [|[k u] o IH]; simpl; [discriminate |].
  destruct (String.eqb k key) eqn:E; simpl; rewrite E; auto.
Qed.

Lemma lookup_insert_index (n : N) (key : string) (v : jsval) (o : props) :
  array_index key = Some n ->
  lookup_prop key (insert_index n key v o) = Some v.
Proof.
  intros Hkey. induction o as [|[k u] o IH]; simpl.
  - rewrite String.eqb_refl. reflexivity.
  - destruct (array_index k) as [m|] eqn:Hk.
    + destruct (m <? n)%N eqn:Hlt; simpl.
      * destruct (String.eqb_spec k key) as [-> | _]; [| exact IH].
        rewrite Hkey in Hk. injection Hk as ->.
        rewrite N.ltb_irrefl in Hlt. discriminate.
      * rewrite String.eqb_refl. reflexivity.
    + simpl. rewrite String.eqb_refl. reflexivity.
Qed.

Lemma lookup_prop_snoc (key : string) (v : jsval) (o : props) :
  lookup_prop key o = None -> lookup_prop key (o ++ [(key, v)]) = Some v.
Proof.
  induction o as [|[k u] o IH]; simpl.
  - rewrite String.eqb_refl. reflexivity.
  - destruct (String.eqb k key); [discriminate | exact IH].
Qed.

Lemma lookup_set_prop (key : string) (v : jsval) (o : props) :
  key <> "__proto__" -> lookup_prop key (set_prop key v o) = Some v.
Proof.
  intros Hkey. unfold set_prop, define_prop.
  destruct (String.eqb_spec key "__proto__"); [contradiction |].
  destruct (lookup_prop key o) eqn:E.
  - apply (lookup_replace_prop _ _ _ _ E).
  - destruct (array_index key) eqn:Hi.
    + apply lookup_insert_index, Hi.
    + apply lookup_prop_snoc, E.
Qed.

Lemma mset_object_app (n : nat) :
  forall (pairs rest : list string) (o : props),
    List.length pairs = (2 * n)%nat ->
    mset_object (pairs ++ rest) o = mset_object rest (mset_object pairs o).
Proof.
  induction n as [|n IH]; intros pairs rest o Hlen.
  - destruct pairs; [reflexivity | discriminate].
  - destruct pairs as [|a [|b pairs]]; simpl in Hlen; try lia.
    simpl. apply IH. lia.
Qed.

(** X15: the object handed to [mSet] gives a key the value of its last
    pair: a pair added after an even number of tokens sets its key, whatever
    an earlier pair gave it. *)
Theorem mset_object_last_wins (pairs : list string) (key value : string)
    (msetObj : props) :
  (List.length pairs mod 2 = 0)%nat ->
  key <> "__proto__" ->
  lookup_prop key (mset_object (pairs ++ [key; value]) msetObj)
  = Some (VStr value).
Proof.
  intros Heven Hkey.
  rewrite (mset_object_app (List.length pairs / 2)).
  - simpl. apply lookup_set_prop, Hkey.
  - pose proof (Nat.div_mod_eq (List.length pairs) 2). lia.
Qed.

Lemma mset_object_last_wins_witness :
  lookup_prop "a" (mset_object (["a"; "1"; "b"; "2"] ++ ["a"; "3"]) [])
  = Some (VStr "3").
Proof.
  apply (mset_object_last_wins ["a"; "1"; "b"; "2"] "a" "3" []);
    [reflexivity | discriminate].
Defined.



Lemma execute_connection_witness :
  (opened (execute example_runtime read_only
             (example_host "delete" false 2 "value") start).2 <= 1)%nat
  /\ (closed (execute example_runtime read_only
                (example_host "delete" false 2 "value") start).2 <= 1)%nat
  /\ match (execute example_runtime read_only
              (example_host "delete" false 2 "value") start).1 with
     | Ok _ =>
         opened (execute example_runtime read_only
                   (example_host "delete" false 2 "value") start).2 = 1%nat
         /\ closed (execute example_runtime read_only
                      (example_host "delete" false 2 "value") start).2 = 1%nat
     | Thrown _ => True
     end.
Proof.
  apply (execute_connection example_runtime read_only
           (example_host "delete" false 2 "value")).
  - intros op [= <-]. split; discriminate.
  - reflexivity.
Defined.

Lemma execute_one_output_per_item_witness :
  exists batch,
    [[Out {| json := [("x", VInt 1)]; pairedItem := None |};
      Out {| json := [("x", VInt 1)]; pairedItem := None |}]] = [batch]
    /\ List.length batch
       = List.length (getInputData (example_host "publish" false 2 "news")).
Proof.
  apply (execute_one_output_per_item example_runtime accepting
           (example_host "publish" false 2 "news") "publish" _
           (execute example_runtime accepting
              (example_host "publish" false 2 "news") start).2).
  - reflexivity.
  - vm_compute. repeat (first [apply list_elem_of_here | apply list_elem_of_further]).
  - split; discriminate.
  - reflexivity.
Defined.

(** X19: when [connect] is rejected, [execute] throws the rejection and
    makes no other call; when [ping] is rejected after [connect] resolved,
    [execute] throws the rejection and the connection is left open: [quit]
    is not called. *)
Theorem execute_connection_failure (rt : Runtime) (respond : oracle)
    (this : IExecuteFunctions) (credentials : RedisCredential) (msg : string) :
  getCredentials this = Ok credentials ->
  (respond (setupRedisClient credentials) [] (Call "connect" []) = Reject msg ->
   execute rt respond this start
   = (Thrown (Err msg None),
      {| trace := [Call "connect" []]; returnItems := [] |}))
  /\ (forall v,
        respond (setupRedisClient credentials) [] (Call "connect" [])
        = Resolve v ->
        respond (setupRedisClient credentials) [Call "connect" []]
                (Call "ping" []) = Reject msg ->
        execute rt respond this start
        = (Thrown (Err msg None),
           {| trace := [Call "connect" []; Call "ping" []];
              returnItems := [] |})).
Proof.
  intros Hcred. split.
  - intros Hconnect. unfold execute.
    rewrite run_bind, run_lift, Hcred, run_bind.
    unfold await at 1. simpl trace. rewrite Hconnect. reflexivity.
  - intros v Hconnect Hping. unfold execute.
    rewrite run_bind, run_lift, Hcred, run_bind.
    unfold await at 1. simpl trace. rewrite Hconnect.
    rewrite run_bind. unfold await at 1. simpl trace. rewrite Hping.
    reflexivity.
Qed.

Lemma execute_connection_failure_witness :
  execute example_runtime (rejecting "connect" "ECONNREFUSED")
          (example_host "get" false 1 "value") start
  = (Thrown (Err "ECONNREFUSED" None),
     {| trace := [Call "connect" []]; returnItems := [] |})
  /\ execute example_runtime (rejecting "ping" "NOAUTH")
             (example_host "get" false 1 "value") start
     = (Thrown (Err "NOAUTH" None),
        {| trace := [Call "connect" []; Call "ping" []]; returnItems := [] |}).
Proof.
  split.
  - apply (execute_connection_failure example_runtime
             (rejecting "connect" "ECONNREFUSED")
             (example_host "get" false 1 "value") example_credential
             "ECONNREFUSED" eq_refl). reflexivity.
  - apply (execute_connection_failure example_runtime
             (rejecting "ping" "NOAUTH")
             (example_host "get" false 1 "value") example_credential
             "NOAUTH" eq_refl) with (v := VStr "OK"); reflexivity.
Defined.

(** X20: the info operation composes the store's report with the parser:
    when [info] resolves with a text that parses, [execute] returns one
    batch holding the parsed report alone, whatever the input items, after
    the calls [connect], [ping], [info] and [quit]. *)
Theorem execute_info_report (rt : Runtime) (respond : oracle)
    (this : IExecuteFunctions) (credentials : RedisCredential)
    (text : string) (report : gmap string info_value) (v1 v2 v3 : jsval) :
  getCredentials this = Ok credentials ->
  getNodeParameter this "operation" 0%nat None = Ok (VStr "info") ->
  respond (setupRedisClient credentials) [] (Call "connect" []) = Resolve v1 ->
  respond (setupRedisClient credentials) [Call "connect" []] (Call "ping" [])
  = Resolve v2 ->
  respond (setupRedisClient credentials) [Call "connect" []; Call "ping" []]
          (Call "info" []) = Resolve (VStr text) ->
  convertInfoToObject text = Ok report ->
  respond (setupRedisClient credentials)
          [Call "connect" []; Call "ping" []; Call "info" []]
          (Call "quit" []) = Resolve v3 ->
  execute rt respond this start
  = (Ok [[OutReport report]],
     {| trace := [Call "connect" []; Call "ping" []; Call "info" [];
                  Call "quit" []];
        returnItems := [OutReport report] |}).
Proof.
  intros Hcred Hop Hconnect Hping Hinfo Hparse Hquit.
  unfold execute.
  rewrite run_bind, run_lift, Hcred, run_bind.
  unfold await at 1. simpl trace. rewrite Hconnect.
  rewrite run_bind. unfold await at 1. simpl trace. rewrite Hping.
  rewrite run_bind, run_lift, Hop, run_bind.
  unfold dispatch. change (is_str (VStr "info") "info") with true. cbv iota.
  unfold op_info, try_catch.
  rewrite run_bind. unfold await at 1. simpl trace. rewrite Hinfo.
  rewrite run_bind, run_lift. simpl report_of. rewrite Hparse.
  unfold push. simpl. rewrite run_bind.
  unfold await at 1. simpl trace. rewrite Hquit.
  reflexivity.
Qed.

Lemma execute_info_report_witness :
  execute example_runtime reporting (example_host "info" false 3 "value") start
  = (Ok [[OutReport
            (<["redis_version" := IScalar (SNumber (decimal 62 1))]>
             (<["connected_clients" := IScalar (SNumber (decimal 1 0))]>
              (<["role" := IScalar (SString "master")]> ∅)))]],
     {| trace := [Call "connect" []; Call "ping" []; Call "info" [];
                  Call "quit" []];
        returnItems :=
          [OutReport
             (<["redis_version" := IScalar (SNumber (decimal 62 1))]>
              (<["connected_clients" := IScalar (SNumber (decimal 1 0))]>
               (<["role" := IScalar (SString "master")]> ∅)))] |}).
Proof.
  apply (execute_info_report example_runtime reporting
           (example_host "info" false 3 "value") example_credential
           sample_report _ (VStr "OK") (VStr "OK") (VStr "OK"));
    first [reflexivity | vm_compute; reflexivity].
Defined.

(** X21: under isolation a run of a per-item operation that handles one
    item in a turn does not fail on account of its items: when [connect],
    [ping] and [quit] resolve, [execute] returns one batch with one output
    for each input item, whatever the store answers to the other calls. *)
Theorem execute_isolated_completes (rt : Runtime) (respond : oracle)
    (this : IExecuteFunctions) (credentials : RedisCredential)
    (operation : string) :
  getCredentials this = Ok credentials ->
  getNodeParameter this "operation" 0%nat None = Ok (VStr operation) ->
  operation ∈ per_item_operations ->
  single_item operation ->
  continueOnFail this = true ->
  (forall history command,
     command = "connect" \/ command = "ping" \/ command = "quit" ->
     exists v,
       respond (setupRedisClient credentials) history (Call command [])
       = Resolve v) ->
  exists batch s,
    execute rt respond this start = (Ok [batch], s)
    /\ List.length batch = List.length (getInputData this).
Proof.
  intros Hcred Hop Hlisted Hsingle Hisolate Haccept.
  set (client := setupRedisClient credentials) in *.
  unfold execute.
  rewrite run_bind, run_lift, Hcred, run_bind. fold client.
  unfold await at 1. simpl trace.
  destruct (Haccept [] "connect" (or_introl eq_refl)) as [v1 ->].
  rewrite run_bind. unfold await at 1. simpl trace.
  destruct (Haccept [Call "connect" []] "ping" (or_intror (or_introl eq_refl)))
    as [v2 ->].
  rewrite run_bind, run_lift, Hop, run_bind.
  unfold dispatch.
  assert (Hinfo : is_str (VStr operation) "info" = false).
  { destruct (is_str (VStr operation) "info") eqn:Hi; [| reflexivity].
    apply is_str_eq in Hi. injection Hi as ->.
    exfalso. revert Hlisted. vm_compute. intros H.
    repeat (apply elem_of_cons in H as [H | H]; [discriminate |]).
    apply elem_of_nil in H. contradiction. }
  rewrite Hinfo, bool_decide_eq_true_2 by assumption.
  match goal with |- context [item_loop _ _ _ _ _ ?l ?s2] =>
    destruct (item_loop rt respond this client operation l s2)
      as [[[]|e] s3] eqn:E
  end;
    apply (item_loop_outcome rt respond this client operation Hlisted Hsingle)
      in E as (_ & E).
  - destruct E as (_ & E).
    rewrite run_bind. unfold await at 1.
    destruct (Haccept (trace s3) "quit" (or_intror (or_intror eq_refl)))
      as [v3 ->].
    eexists _, _. split; [reflexivity |].
    simpl in E. simpl. rewrite E, List.length_seq. reflexivity.
  - destruct E as (_ & E). congruence.
Qed.

Lemma execute_isolated_completes_witness :
  exists batch s,
    execute example_runtime read_only (example_host "delete" true 2 "value")
            start = (Ok [batch], s)
    /\ List.length batch
       = List.length (getInputData (example_host "delete" true 2 "value")).
Proof.
  apply (execute_isolated_completes example_runtime read_only
           (example_host "delete" true 2 "value") example_credential "delete").
  - reflexivity.
  - reflexivity.
  - apply list_elem_of_here.
  - split; discriminate.
  - reflexivity.
  - intros history command [-> | [-> | ->]]; exists (VStr "OK"); reflexivity.
Defined.

Lemma hset_properties (rt : Runtime) (respond : oracle)
    (client keyName : jsval) :
  (forall history c, exists v, respond client history c = Resolve v) ->
  forall (o : props) (s : state),
    Forall (fun entry => entry.2 <> VNull /\ entry.2 <> VUndefined) o ->
    for_each o
      (fun '(key, field) =>
         text ← lift (toString rt field);
         await respond client "hSet" [keyName; VStr key; VStr text];;
         ret tt) s
    = (Ok tt,
       {| trace := trace s ++ hset_per_property rt keyName o;
          returnItems := returnItems s |}).
Proof.
  intros Haccept. unfold hset_per_property.
  induction o as [|[key field] o IH]; intros s Hall.
  - simpl. rewrite app_nil_r. destruct s; reflexivity.
  - apply Forall_cons in Hall as [[Hnull Hundef] Hall]. simpl in Hnull, Hundef.
    rewrite run_for_each_cons, run_bind, run_lift.
    assert (Htext : toString rt field = Ok (ToString rt field))
      by (destruct field; try reflexivity; contradiction).
    rewrite Htext. cbv beta iota. rewrite run_bind. unfold await at 1.
    destruct (Haccept (trace s)
                (Call "hSet" [keyName; VStr key; VStr (ToString rt field)]))
      as [v ->].
    unfold ret at 1. rewrite (IH _ Hall). simpl.
    rewrite <- app_assoc. reflexivity.
Qed.

(** X13: a JSON-flagged hash write of a text that parses to an object
    writes the object field by field: under a store that resolves every
    call, and when no property is null, the calls are one
    [hSet(key, name, value.toString())] for each property, in the order of
    the object, followed by [expire] when a positive expiration was asked
    for. *)
Theorem setValue_hash_object (rt : Runtime) (respond : oracle)
    (client keyName expire ttl valueIsJSON setMode : jsval) (text : string)
    (o : props) (s : state) :
  truthy valueIsJSON = true ->
  JSON_parse rt text = Ok (VObj o) ->
  Forall (fun entry => entry.2 <> VNull /\ entry.2 <> VUndefined) o ->
  (forall history c, exists v, respond client history c = Resolve v) ->
  trace (setValue rt respond client keyName (VStr text) expire ttl
                  (VStr "hash") valueIsJSON setMode s).2
  = trace s ++ hset_per_property rt keyName o
    ++ (if truthy expire && gt0 rt ttl
        then [Call "expire" [keyName; ttl]] else []).
Proof.
  intros Hjson Hparse Hall Haccept.
  rewrite (setValue_non_string rt respond client keyName (VStr text) expire
             ttl (VStr "hash") valueIsJSON setMode (VStr "hash") s
             eq_refl eq_refl).
  unfold write_other. change (is_str (VStr "hash") "hash") with true. cbv iota.
  unfold set_hash. rewrite Hjson, Hparse.
  rewrite run_bind, run_lift.
  change (own_entries (VObj o)) with (Ok o). cbv iota beta.
  rewrite (hset_properties rt respond client keyName Haccept o s Hall).
  unfold set_finish. rewrite run_bind. simpl negb. rewrite andb_true_r.
  destruct (truthy expire && gt0 rt ttl).
  - rewrite run_bind. unfold await at 1. simpl trace.
    match goal with
    | |- context [respond client ?h ?c] => destruct (Haccept h c) as [v ->]
    end.
    rewrite run_ret, run_lift. simpl. rewrite <- app_assoc. reflexivity.
  - rewrite run_ret, run_lift. simpl. rewrite app_nil_r. reflexivity.
Qed.

Lemma setValue_hash_object_witness :
  trace (setValue ada_runtime accepting VNull (VStr "user:1") (VStr ada_text)
                  (VBool false) (VInt (-1)) (VStr "hash") (VBool true)
                  (VStr "always") start).2
  = [Call "hSet" [VStr "user:1"; VStr "name"; VStr "Ada"];
     Call "hSet" [VStr "user:1"; VStr "age"; VStr "36"]].
Proof.
  apply (setValue_hash_object ada_runtime accepting VNull (VStr "user:1")
           (VBool false) (VInt (-1)) (VBool true) (VStr "always") ada_text
           [("name", VStr "Ada"); ("age", VInt 36)] start).
  - reflexivity.
  - reflexivity.
  - repeat constructor; discriminate.
  - intros history c. exists (VStr "OK"). reflexivity.
Defined.
